(** * parse_KGML: a KGML pathway file as a networkx graph

    Shallow embedding of [src/parse_KGML.py] (function [KGML2Graph]) and the
    properties of its specification.

    - Python strings are [string]; dictionaries are [gmap]; Python 2
      dictionaries have no meaningful iteration order, so neither do ours.
    - A Python exception is a value of [exception]; code that may raise
      returns a [result].
    - [xml.etree.ElementTree] and [networkx.Graph] are libraries the program
      calls; the parts it uses are modelled in [ET] and [networkx]. *)

From stdpp Require Import gmap strings list fin_maps.
From Stdlib Require Import ZArith Lia Ascii.

Open Scope string_scope.
Set Warnings "-register-all,-clear-no-such-hyp".

(** ** Exceptions *)

Inductive exception :=
  | IOError                         (* a file that cannot be opened *)
  | ParseError                      (* ET.parse on a malformed document (the
                                       parser's error; ExpatError before
                                       ElementTree 1.3) *)
  | KeyError (key : string)         (* d[key] with key absent *)
  | AttributeError (attr : string). (* None.attr *)

Inductive result (A : Type) :=
  | Ok (a : A)
  | Raise (e : exception).
Arguments Ok {A} a.
Arguments Raise {A} e.

#[global] Instance result_ret : MRet result := fun A a => Ok a.
#[global] Instance result_bind : MBind result := fun A B f r =>
  match r with
  | Ok a => f a
  | Raise e => Raise e
  end.

(** [for x in xs: st = body(st, x)], leaving at the first exception. *)
Fixpoint for_each {S X : Type} (body : S → X → result S) (st : S) (xs : list X)
  : result S :=
  match xs with
  | [] => Ok st
  | x :: xs' => st' ← body st x; for_each body st' xs'
  end.

(** [d[k]] on a dictionary. *)
Definition getitem {V : Type} (d : gmap string V) (k : string) : result V :=
  match d !! k with
  | Some v => Ok v
  | None => Raise (KeyError k)
  end.

(** ** Python string slices [s[i:]] and [s[:j]] *)

Module Py.

(** A slice bound is counted from the end when negative, then clamped to
    [0 .. len]. *)
Definition slice_index (len i : Z) : Z :=
  let i' := (if i <? 0 then i + len else i)%Z in
  Z.max 0 (Z.min len i').

Definition slice_from (i : Z) (s : string) : string :=
  let len := Z.of_nat (String.length s) in
  let lo := slice_index len i in
  String.substring (Z.to_nat lo) (Z.to_nat (len - lo)) s.

Definition slice_to (j : Z) (s : string) : string :=
  let len := Z.of_nat (String.length s) in
  String.substring 0 (Z.to_nat (slice_index len j)) s.

End Py.

(** ** xml.etree.ElementTree *)

Module ET.

Inductive Element := mkElement {
  tag : string;
  attrib : gmap string string;
  children : list Element
}.

(** What [ET.parse(xmlfile)] meets: a file it cannot read, a document that
    does not parse, or one with a root element. *)
Inductive xmlsource :=
  | Unreadable
  | Malformed
  | Document (root : Element).

Definition parse (xmlfile : xmlsource) : result Element :=
  match xmlfile with
  | Unreadable => Raise IOError
  | Malformed => Raise ParseError
  | Document root => Ok root
  end.

(** [getiterator(tag)]: the element itself and all its descendants, in
    document order, that carry the tag (["*"] selects every element). *)
Fixpoint getiterator (tg : string) (e : Element) : list Element :=
  match e with
  | mkElement t _ cs =>
      (if decide (tg = "*" ∨ t = tg) then [e] else [])
        ++ flat_map (getiterator tg) cs
  end.

(** [el.find(tag)]: the first direct child with the tag, or [None]. *)
Definition find (tg : string) (e : Element) : option Element :=
  List.find (fun c => bool_decide (tag c = tg)) (children e).

(** [tree.find('/')] on an ElementTree.  The path is turned into ["./"],
    which ElementTree 1.2 (the version that still has [getiterator] as its
    only iterator) resolves to the root element itself. *)
Definition find_root (tree : Element) : option Element := Some tree.

(** [x.attrib] where [x] may be [None]. *)
Definition attrib_of (x : option Element) : result (gmap string string) :=
  match x with
  | Some e => Ok (attrib e)
  | None => Raise (AttributeError "attrib")
  end.

End ET.

(** ** networkx.Graph *)

Module networkx.

(** An undirected simple graph: the node dictionary (keys only, the
    attribute dictionaries stay empty here), the adjacency dictionary
    [adj[u][v]], and the [title] attribute the program sets on the
    object. *)
Record Graph := mkGraph {
  title : option string;
  node : gset string;
  adj : gmap string (gset string)
}.

(** [networkx.Graph()] *)
Definition empty : Graph :=
  {| title := None; node := ∅; adj := ∅ |}.

Definition set_title (g : Graph) (t : string) : Graph :=
  {| title := Some t; node := node g; adj := adj g |}.

(** [add_node(n)]: a new node gets an empty adjacency. *)
Definition add_node (g : Graph) (n : string) : Graph :=
  if decide (n ∈ node g) then g
  else {| title := title g; node := {[n]} ∪ node g; adj := <[n := ∅]> (adj g) |}.

(** [add_edge(u, v)]: both ends are made nodes, then [adj[u][v]] and
    [adj[v][u]] are set. *)
Definition add_edge (g : Graph) (u v : string) : Graph :=
  let g1 := add_node g u in
  let g2 := add_node g1 v in
  let a1 := alter (fun nbrs => {[v]} ∪ nbrs) u (adj g2) in
  let a2 := alter (fun nbrs => {[u]} ∪ nbrs) v a1 in
  {| title := title g2; node := node g2; adj := a2 |}.

(** [nodes()] *)
Definition nodes (g : Graph) : gset string := node g.

(** [has_edge(u, v)]: [v in adj[u]], false when [u] is no node. *)
Definition has_edge (g : Graph) (u v : string) : Prop :=
  v ∈ default ∅ (adj g !! u).

(** The invariant of the class: the two dictionaries have the same keys,
    adjacency stays inside the node set and is symmetric. *)
Record wf (g : Graph) : Prop := mk_wf {
  wf_dom : dom (adj g) = node g;
  wf_closed : ∀ u v, has_edge g u v → u ∈ node g ∧ v ∈ node g;
  wf_sym : ∀ u v, has_edge g u v → has_edge g v u
}.

(** [edges()]: [for n, nbrs in adj.items(): for nbr in nbrs: if nbr not in
    seen: yield (n, nbr)] and then [seen[n] = 1]. *)
Fixpoint edges_iter (seen : gset string) (items : list (string * gset string))
  : list (string * string) :=
  match items with
  | [] => []
  | (n, nbrs) :: rest =>
      ((fun nbr => (n, nbr)) <$> filter (fun nbr => nbr ∉ seen) (elements nbrs))
        ++ edges_iter ({[n]} ∪ seen) rest
  end.

Definition edges (g : Graph) : list (string * string) :=
  edges_iter ∅ (map_to_list (adj g)).

(** [number_of_edges()]: the number of edges, each counted once, which is
    the length of [edges()]. *)
Definition number_of_edges (g : Graph) : nat := length (edges g).

(** The pair [e] joins [a] and [b], in either order. *)
Definition joins (a b : string) (e : string * string) : Prop :=
  e = (a, b) ∨ e = (b, a).
#[global] Instance joins_dec a b e : Decision (joins a b e).
Proof. unfold joins. apply _. Defined.

(** How many entries of [edges()] join [a] and [b]. *)
Definition multiplicity (g : Graph) (a b : string) : nat :=
  length (filter (joins a b) (edges g)).

End networkx.

(** ** parse_KGML.KGML2Graph *)

(** A descriptor [(name, title, type)], as stored in [nodes[id]]. *)
Definition descriptor : Type := string * string * string.

(** [d[1]] *)
Definition descriptor_label (d : descriptor) : string := d.1.2.
(** [d[2]] *)
Definition descriptor_kind (d : descriptor) : string := d.2.

(** Lines 47-50. *)
Definition entriestype (filetype : string) : list string :=
  if decide (filetype ∈ ["organism"; "o"]) then ["gene"; "compound"; "map"]
  else ["ortholog"; "map"; "compound"].

(** Lines 70-71. *)
Definition normalize_title (title : string) : string :=
  if decide (Py.slice_from (-3) title = "...") then Py.slice_to (-3) title
  else title.

(** Body of the loop of lines 56-75, on the state [(nodes, graph)]. *)
Definition entry_body (kinds : list string)
    (st : gmap string descriptor * networkx.Graph) (el : ET.Element)
  : result (gmap string descriptor * networkx.Graph) :=
  let '(nodes, graph) := st in
  (* logging.debug(el.attrib['type'] + ' ' + el.attrib['id']) *)
  _ ← getitem (ET.attrib el) "type";
  _ ← getitem (ET.attrib el) "id";
  ty ← getitem (ET.attrib el) "type";
  if decide (ty ∈ kinds) then
    name ← getitem (ET.attrib el) "name";
    id ← getitem (ET.attrib el) "id";
    gattrib ← ET.attrib_of (ET.find "graphics" el);
    title ← getitem gattrib "name";
    let title := normalize_title title in
    ty2 ← getitem (ET.attrib el) "type";
    let nodes := <[id := (name, title, ty2)]> nodes in
    ty3 ← getitem (ET.attrib el) "type";
    if decide (ty3 = "gene") then Ok (nodes, networkx.add_node graph title)
    else Ok (nodes, graph)
  else Ok (nodes, graph).

(** Body of the loop of lines 79-90. *)
Definition relation_body (nodes : gmap string descriptor)
    (graph : networkx.Graph) (rel : ET.Element) : result networkx.Graph :=
  e1 ← getitem (ET.attrib rel) "entry1";
  e2 ← getitem (ET.attrib rel) "entry2";
  d1 ← getitem nodes e1;
  d2 ← getitem nodes e2;
  Ok (networkx.add_edge graph (descriptor_label d1) (descriptor_label d2)).

(** What [KGML2Graph] returns: [(tree, graph, nodes, genes, reactions)]. *)
Record output := mkOutput {
  out_tree : ET.Element;
  out_graph : networkx.Graph;
  out_nodes : gmap string descriptor;
  out_genes : list string;
  out_reactions : gmap string string
}.

Definition KGML2Graph (xmlfile : ET.xmlsource) (filetype : string)
  : result output :=
  let graph := networkx.empty in
  let nodes : gmap string descriptor := ∅ in
  let genes : list string := [] in
  let reactions : gmap string string := ∅ in
  tree ← ET.parse xmlfile;
  let kinds := entriestype filetype in
  rattrib ← ET.attrib_of (ET.find_root tree);
  title ← getitem rattrib "title";
  let graph := networkx.set_title graph title in
  st ← for_each (entry_body kinds) (nodes, graph) (ET.getiterator "entry" tree);
  let '(nodes, graph) := st in
  graph ← for_each (relation_body nodes) graph (ET.getiterator "relation" tree);
  Ok (mkOutput tree graph nodes genes reactions).



(** ** The loops without their exceptions

    What one iteration does to the state when it raises nothing, as plain
    functions; [entries_loop_Ok] and [relations_loop_Ok] below show that the
    loops of [KGML2Graph] compute exactly these whenever they return. *)

(** [el.find('graphics').attrib['name']] *)
Definition graphics_title (el : ET.Element) : option string :=
  g ← ET.find "graphics" el; ET.attrib g !! "name".

(** The key and the descriptor line 73 stores for an entry. *)
Definition entry_record (el : ET.Element) : option (string * descriptor) :=
  ty ← ET.attrib el !! "type";
  name ← ET.attrib el !! "name";
  id ← ET.attrib el !! "id";
  title ← graphics_title el;
  Some (id, (name, normalize_title title, ty)).

(** The test of line 59. *)
Definition accepted (kinds : list string) (el : ET.Element) : Prop :=
  ∃ ty, ET.attrib el !! "type" = Some ty ∧ ty ∈ kinds.

#[global] Instance accepted_dec kinds el : Decision (accepted kinds el).
Proof.
  unfold accepted. destruct (ET.attrib el !! "type") as [ty|].
  - destruct (decide (ty ∈ kinds)); [left; eauto | right; naive_solver].
  - right. naive_solver.
Defined.

Definition entry_update (kinds : list string)
    (st : gmap string descriptor * networkx.Graph) (el : ET.Element)
  : gmap string descriptor * networkx.Graph :=
  match entry_record el with
  | Some (id, d) =>
      if decide (descriptor_kind d ∈ kinds) then
        (<[id := d]> st.1,
         if decide (descriptor_kind d = "gene")
         then networkx.add_node st.2 (descriptor_label d) else st.2)
      else st
  | None => st
  end.

(** The descriptor table after the entries pass. *)
Definition descriptor_table (filetype : string) (tree : ET.Element)
  : gmap string descriptor :=
  (foldl (entry_update (entriestype filetype)) (∅, networkx.empty)
         (ET.getiterator "entry" tree)).1.

(** A gene label: the label of an accepted entry of kind ['gene']. *)
Definition gene_label_in (kinds : list string) (els : list ET.Element)
    (l : string) : Prop :=
  ∃ el id d, el ∈ els ∧ accepted kinds el ∧ entry_record el = Some (id, d) ∧
             descriptor_kind d = "gene" ∧ descriptor_label d = l.

(** [graph.add_edge(a, b)] for a resolved pair of labels. *)
Definition add_pair (g : networkx.Graph) (p : string * string) : networkx.Graph :=
  networkx.add_edge g p.1 p.2.

(** The two labels line 90 joins for a relation. *)
Definition resolve (nodes : gmap string descriptor) (rel : ET.Element)
  : option (string * string) :=
  e1 ← ET.attrib rel !! "entry1";
  e2 ← ET.attrib rel !! "entry2";
  d1 ← nodes !! e1;
  d2 ← nodes !! e2;
  Some (descriptor_label d1, descriptor_label d2).

(** A relation names, as [entry1] or [entry2], an id without a descriptor. *)
Definition unresolved_endpoint (nodes : gmap string descriptor)
    (rel : ET.Element) : Prop :=
  ∃ key id, key ∈ ["entry1"; "entry2"] ∧ ET.attrib rel !! key = Some id
            ∧ nodes !! id = None.

(** An entry the entries pass gets through without an exception. *)
Definition entry_readable (kinds : list string) (el : ET.Element) : Prop :=
  is_Some (ET.attrib el !! "type") ∧ is_Some (ET.attrib el !! "id") ∧
  (accepted kinds el → is_Some (entry_record el)).

(** [title] ends in the three characters ['...']. *)
Definition ends_with_marker (title : string) : Prop :=
  ∃ p, title = p +:+ "...".

(** The [choices] of the command line option [-type] (line 114). *)
Definition pathwaytype_choices : list string :=
  ["ko"; "k"; "generic"; "general"; "organism"; "o"].

(** An endpoint of a listed edge. *)
Definition edge_endpoint (g : networkx.Graph) (l : string) : Prop :=
  ∃ e, e ∈ networkx.edges g ∧ (l = e.1 ∨ l = e.2).

(** ** Sample documents *)

Module samples.

Definition entry (id ty name title : string) : ET.Element :=
  ET.mkElement "entry"
    (list_to_map [("id", id); ("type", ty); ("name", name)])
    [ET.mkElement "graphics" (list_to_map [("name", title)]) []].

Definition relation (e1 e2 : string) : ET.Element :=
  ET.mkElement "relation" (list_to_map [("entry1", e1); ("entry2", e2)]) [].

Definition pathway (title : string) (els : list ET.Element) : ET.Element :=
  ET.mkElement "pathway" (list_to_map [("title", title)]) els.

(** An organism file: two genes, a compound, a repeated id and a repeated
    relation. *)
Definition hsa : ET.Element :=
  pathway "Pathway X"
    [entry "1" "gene" "A" "ALG8";
     entry "2" "gene" "B" "ALG2...";
     entry "3" "compound" "C" "C00001";
     entry "4" "ortholog" "K" "K00001";
     entry "3" "compound" "D" "C00002";
     relation "1" "2";
     relation "2" "1";
     relation "1" "3"].

(** A generic file: two ortholog groups joined by one relation. *)
Definition ko : ET.Element :=
  pathway "Pathway K"
    [entry "1" "ortholog" "K1" "K00001";
     entry "2" "ortholog" "K2" "K00002";
     relation "1" "2"].

(** An organism file whose relation names the ortholog entry. *)
Definition dangling : ET.Element :=
  pathway "Pathway D"
    [entry "1" "gene" "A" "ALG8";
     entry "4" "ortholog" "K" "K00001";
     relation "1" "4"].

(** An organism file whose relation names, as [entry1], an id that no
    entry has. *)
Definition unknown_id : ET.Element :=
  pathway "Pathway U"
    [entry "1" "gene" "A" "ALG8";
     relation "entry1" "1"].

(** An organism file whose relation has no [entry1] attribute; its
    [entry2] is the id of an entry. *)
Definition no_entry1 : ET.Element :=
  pathway "Pathway N"
    [entry "1" "gene" "A" "ALG8";
     ET.mkElement "relation" {["entry2" := "1"]} []].

(** A converted document whose title holds the path separator. *)
Definition glycolysis : ET.Element :=
  pathway "Glycolysis / Gluconeogenesis"
    [entry "1" "gene" "A" "HK1";
     entry "2" "gene" "B" "GPI";
     relation "1" "2"].

End samples.

(** ** The exporters and the command line (lines 94-133) *)

Module Pystr.

(** [s.replace(old, new)] for a non-empty [old]: the occurrences of [old]
    are taken from the left and do not overlap; [skip] counts the characters
    of an occurrence still to be passed over. *)
Fixpoint replace_from (old new : string) (skip : nat) (s : string) : string :=
  match s with
  | EmptyString => EmptyString
  | String c s' =>
      match skip with
      | S k => replace_from old new k s'
      | O =>
          if String.prefix old s
          then new +:+ replace_from old new (String.length old - 1) s'
          else String c (replace_from old new 0 s')
      end
  end.

(** With an empty [old], [new] goes before every character and at the
    end. *)
Fixpoint replace_empty (new : string) (s : string) : string :=
  match s with
  | EmptyString => new
  | String c s' => new +:+ String c (replace_empty new s')
  end.

Definition replace (s old new : string) : string :=
  if decide (old = "") then replace_empty new s else replace_from old new 0 s.

End Pystr.

(** The calls the program makes to pylab and to networkx's drawing and
    writing functions.  The messages of [logging] are not recorded. *)
Inductive effect :=
  | DrawCircular (g : networkx.Graph)               (* networkx.draw_circular *)
  | PylabTitle (t : string)                         (* pylab.title *)
  | SaveFig (filename : string)                     (* pylab.savefig *)
  | PylabShow                                       (* pylab.show *)
  | WriteGml (g : networkx.Graph) (filename : string). (* networkx.write_gml *)

(** What such a call does in a run: it returns ([None]) or raises. *)
Definition library : Type := effect → option exception.

(** A run in which every library call returns. *)
Definition no_failures : library := fun _ => None.

(** A computation with library calls: the calls it made, in order, the last
    of which may be the one that raised, and how it ended. *)
Definition io (A : Type) : Type := list effect * result A.

Definition io_bind {A B : Type} (m : io A) (f : A → io B) : io B :=
  match m.2 with
  | Ok a => ((m.1 ++ (f a).1)%list, (f a).2)
  | Raise e => (m.1, Raise e)
  end.

Definition call (lib : library) (e : effect) : io unit :=
  ([e], match lib e with
        | None => Ok tt
        | Some x => Raise x
        end).
Definition lift {A : Type} (r : result A) : io A := ([], r).
Definition skip : io unit := ([], Ok tt).

(** The calls of a list, one after the other, up to the first that
    raises. *)
Fixpoint call_all (lib : library) (calls : list effect) : io unit :=
  match calls with
  | [] => skip
  | c :: calls' => io_bind (call lib c) (fun _ => call_all lib calls')
  end.

(** [graph.title], an attribute the object has only once it was set. *)
Definition graph_title (g : networkx.Graph) : result string :=
  match networkx.title g with
  | Some t => Ok t
  | None => Raise (AttributeError "title")
  end.

(** The name [plot_starlike] saves the image under (lines 97-98). *)
Definition plot_filename (title : string) : string :=
  Pystr.replace title "/" "-" +:+ ".png".

(** The name [convert_to_gml] writes to (line 106). *)
Definition gml_filename (title : string) : string := title +:+ ".gml".

(** Lines 94-99. *)
Definition plot_starlike (lib : library) (graph : networkx.Graph) : io unit :=
  io_bind (call lib (DrawCircular graph)) (fun _ =>
  io_bind (lift (graph_title graph)) (fun t =>
  io_bind (call lib (PylabTitle t)) (fun _ =>
  io_bind (lift (graph_title graph)) (fun t' =>
  io_bind (call lib (SaveFig (plot_filename t'))) (fun _ =>
  call lib PylabShow))))).

(** Lines 101-106. *)
Definition convert_to_gml (lib : library) (graph : networkx.Graph) : io unit :=
  io_bind (lift (graph_title graph)) (fun t =>
  call lib (WriteGml graph (gml_filename t))).

(** The namespace [parser.parse_args()] returns (lines 112-119). *)
Record Namespace := mkNamespace {
  pathwayfile : string;
  pathwaytype : string;
  draw_to_image : bool;
  draw_circular : bool;
  write_gml : bool
}.

(** The namespace of a command line without options. *)
Definition default_args : Namespace :=
  {| pathwayfile := "data/hsa00510.xml"; pathwaytype := "o";
     draw_to_image := false; draw_circular := false; write_gml := false |}.

(** Lines 122-133, after the arguments are parsed; [files] says what
    [ET.parse] meets under each path. *)
Definition main (lib : library) (files : string → ET.xmlsource)
    (args : Namespace) : io unit :=
  io_bind (lift (KGML2Graph (files (pathwayfile args)) (pathwaytype args)))
    (fun out =>
  io_bind (if draw_circular args then plot_starlike lib (out_graph out) else skip)
    (fun _ =>
  if write_gml args then convert_to_gml lib (out_graph out) else skip)).

(** The calls of [plot_starlike] for a graph and its title. *)
Definition plot_calls (g : networkx.Graph) (t : string) : list effect :=
  [DrawCircular g; PylabTitle t; SaveFig (plot_filename t); PylabShow].

(** A library whose file-writing calls raise [IOError] on a name that holds
    the path separator and no directory of that name exists. *)
Definition no_such_directory : library := fun e =>
  match e with
  | SaveFig f | WriteGml _ f =>
      if decide ("/"%char ∈ String.list_ascii_of_string f) then Some IOError
      else None
  | _ => None
  end.

(** The characters of a string. *)
Definition chars (s : string) : list Ascii.ascii := String.list_ascii_of_string s.

(** What [replace('/', '-')] does to one character. *)
Definition dash_for_slash (c : Ascii.ascii) : Ascii.ascii :=
  if decide (c = "/"%char) then "-"%char else c.

(** * Properties *)

(** ** Strings and slices *)

Section string_facts.

Lemma string_length_app (p q : string) :
  String.length (p +:+ q) = String.length p + String.length q.
Proof. induction p as [|c p IH]; simpl; [done | by rewrite IH]. Qed.

Lemma substring_prefix_app (p q : string) :
  String.substring 0 (String.length p) (p +:+ q) = p.
Proof.
  induction p as [|c p IH]; simpl.
  - by destruct q.
  - by rewrite IH.
Qed.

Lemma substring_whole (s : string) :
  String.substring 0 (String.length s) s = s.
Proof. induction s as [|c s IH]; simpl; [done | by rewrite IH]. Qed.

Lemma substring_suffix_app (p q : string) :
  String.substring (String.length p) (String.length q) (p +:+ q) = q.
Proof.
  induction p as [|c p IH]; simpl; [apply substring_whole | done].
Qed.

(** [s[:k] + s[k:] == s] for a bound inside the string. *)
Lemma substring_split (s : string) (k : nat) :
  (k ≤ String.length s)%nat →
  String.substring 0 k s +:+ String.substring k (String.length s - k) s = s.
Proof.
  revert k. induction s as [|c s IH]; intros [|k] Hk; simpl in *; try lia.
  - done.
  - by rewrite substring_whole.
  - change (String c (String.substring 0 k s +:+
             String.substring k (String.length s - k) s) = String c s).
    f_equal. apply IH. lia.
Qed.

Lemma slice_index_range (len i : Z) :
  (0 ≤ len → 0 ≤ Py.slice_index len i ≤ len)%Z.
Proof. unfold Py.slice_index. destruct (i <? 0)%Z; lia. Qed.

Lemma slice_to_from (i : Z) (s : string) :
  Py.slice_to i s +:+ Py.slice_from i s = s.
Proof.
  unfold Py.slice_to, Py.slice_from.
  pose proof (slice_index_range (Z.of_nat (String.length s)) i) as Hr.
  set (k := Py.slice_index _ _) in *.
  replace (Z.to_nat (Z.of_nat (String.length s) - k))
    with (String.length s - Z.to_nat k) by lia.
  apply substring_split. lia.
Qed.

Lemma slice_from_suffix3 (p : string) : Py.slice_from (-3) (p +:+ "...") = "...".
Proof.
  unfold Py.slice_from, Py.slice_index. rewrite string_length_app. simpl.
  replace (Z.to_nat _) with (String.length p) by lia.
  replace (Z.to_nat _) with (String.length "...") by (simpl; lia).
  apply substring_suffix_app.
Qed.

Lemma slice_to_suffix3 (p : string) : Py.slice_to (-3) (p +:+ "...") = p.
Proof.
  unfold Py.slice_to, Py.slice_index. rewrite string_length_app. simpl.
  replace (Z.to_nat _) with (String.length p) by lia.
  apply substring_prefix_app.
Qed.

End string_facts.

Lemma normalize_title_marked (p : string) : normalize_title (p +:+ "...") = p.
Proof.
  unfold normalize_title. rewrite slice_from_suffix3, slice_to_suffix3.
  by rewrite decide_True.
Qed.

Lemma normalize_title_unmarked (t : string) :
  (∀ p, t ≠ p +:+ "...") → normalize_title t = t.
Proof.
  intros Hno. unfold normalize_title. case_decide as Hs; [|done].
  exfalso. apply (Hno (Py.slice_to (-3) t)).
  rewrite <- Hs. symmetry. apply slice_to_from.
Qed.

Lemma ends_with_marker_test (t : string) :
  ends_with_marker t ↔ Py.slice_from (-3) t = "...".
Proof.
  split.
  - intros [p ->]. apply slice_from_suffix3.
  - intros Hs. exists (Py.slice_to (-3) t). rewrite <- Hs. symmetry.
    apply slice_to_from.
Qed.

(** ** The graph container *)

Module graph_facts.
Import networkx.

Lemma has_edge_lookup g u v :
  has_edge g u v ↔ ∃ nbrs, adj g !! u = Some nbrs ∧ v ∈ nbrs.
Proof.
  unfold has_edge. destruct (adj g !! u) as [nbrs|]; simpl.
  - naive_solver.
  - split; [set_solver | naive_solver].
Qed.

Lemma wf_empty : wf empty.
Proof.
  split; simpl.
  - by rewrite dom_empty_L.
  - intros u v. unfold has_edge. simpl. rewrite lookup_empty. set_solver.
  - intros u v. unfold has_edge. simpl. rewrite lookup_empty. set_solver.
Qed.

Lemma has_edge_set_title g t u v : has_edge (set_title g t) u v ↔ has_edge g u v.
Proof. done. Qed.

Lemma wf_set_title g t : wf g → wf (set_title g t).
Proof. intros [H1 H2 H3]. by split. Qed.

Lemma node_add_node g n : node (add_node g n) = {[n]} ∪ node g.
Proof. unfold add_node. case_decide; simpl; set_solver. Qed.

Lemma has_edge_add_node g n u v :
  wf g → has_edge (add_node g n) u v ↔ has_edge g u v.
Proof.
  intros Hwf. unfold add_node. case_decide as Hn; [done|].
  unfold has_edge. simpl.
  destruct (decide (n = u)) as [->|Hne].
  - rewrite lookup_insert_eq. simpl.
    assert (adj g !! u = None) as ->; [|done].
    apply not_elem_of_dom. by rewrite (wf_dom _ Hwf).
  - by rewrite lookup_insert_ne.
Qed.

Lemma wf_add_node g n : wf g → wf (add_node g n).
Proof.
  intros Hwf. split.
  - unfold add_node. case_decide; simpl; [apply Hwf|].
    rewrite dom_insert_L. by rewrite (wf_dom _ Hwf).
  - intros u v. rewrite has_edge_add_node, node_add_node by done.
    intros [??]%(wf_closed _ Hwf). set_solver.
  - intros u v. rewrite !has_edge_add_node by done. apply Hwf.
Qed.

Lemma node_add_edge g u v : node (add_edge g u v) = {[u; v]} ∪ node g.
Proof. unfold add_edge. simpl. rewrite !node_add_node. set_solver. Qed.

Lemma has_edge_add_edge g u v a b :
  wf g →
  has_edge (add_edge g u v) a b ↔
    has_edge g a b ∨ (a = u ∧ b = v) ∨ (a = v ∧ b = u).
Proof.
  intros Hwf.
  assert (wf (add_node (add_node g u) v)) as Hwf2 by by do 2 apply wf_add_node.
  assert (∀ x y, has_edge (add_node (add_node g u) v) x y ↔ has_edge g x y) as Hsame.
  { intros x y. rewrite has_edge_add_node by by apply wf_add_node.
    by rewrite has_edge_add_node. }
  assert (is_Some (adj (add_node (add_node g u) v) !! u)) as [nu Hu].
  { apply elem_of_dom. rewrite (wf_dom _ Hwf2), !node_add_node. set_solver. }
  assert (is_Some (adj (add_node (add_node g u) v) !! v)) as [nv Hv].
  { apply elem_of_dom. rewrite (wf_dom _ Hwf2), !node_add_node. set_solver. }
  rewrite <- Hsame. unfold add_edge, has_edge at 1. simpl.
  rewrite !has_edge_lookup.
  set (a0 := adj (add_node (add_node g u) v)) in *.
  destruct (decide (a = v)) as [->|Hav].
  - rewrite lookup_alter_eq.
    destruct (decide (v = u)) as [->|Hvu].
    + rewrite lookup_alter_eq, Hu. simpl. set_solver.
    + rewrite lookup_alter_ne, Hv by done. simpl. set_solver.
  - rewrite lookup_alter_ne by done.
    destruct (decide (a = u)) as [->|Hau].
    + rewrite lookup_alter_eq, Hu. simpl. set_solver.
    + rewrite lookup_alter_ne by done.
      destruct (a0 !! a) as [na|] eqn:Ha; simpl; [naive_solver|].
      split; [set_solver|]. naive_solver.
Qed.

Lemma wf_add_edge g u v : wf g → wf (add_edge g u v).
Proof.
  intros Hwf. split.
  - unfold add_edge. simpl. rewrite !dom_alter_L.
    apply wf_dom. by do 2 apply wf_add_node.
  - intros a b. rewrite has_edge_add_edge, node_add_edge by done.
    intros [[??]%(wf_closed _ Hwf)|[[-> ->]|[-> ->]]]; set_solver.
  - intros a b. rewrite !has_edge_add_edge by done.
    intros [?%(wf_sym _ Hwf)|[[-> ->]|[-> ->]]]; auto.
Qed.

(** *** The edge list *)

Lemma elem_of_edges_iter seen items a b :
  (a, b) ∈ edges_iter seen items ↔
    ∃ i nbrs, items !! i = Some (a, nbrs) ∧ b ∈ nbrs ∧ (b ∉ seen) ∧
              (∀ j nb, j < i → items !! j ≠ Some (b, nb)).
Proof.
  revert seen. induction items as [|[n nbrs0] rest IH]; intros seen; simpl.
  - split; [by intros ?%elem_of_nil | by intros (i & ? & ? & _)].
  - rewrite elem_of_app, list_elem_of_fmap, IH. split.
    + intros [(nbr & [= -> ->] & Hin)|(i & nbrs & Hi & Hb & Hs & Hbefore)].
      * apply list_elem_of_filter in Hin as [Hns Hin%elem_of_elements].
        exists 0, nbrs0. simpl. split_and!; auto. intros; lia.
      * exists (S i), nbrs. simpl. split_and!; auto; [set_solver|].
        intros [|j] nb Hj; simpl.
        -- intros [= -> _]. set_solver.
        -- apply Hbefore. lia.
    + intros ([|i] & nbrs & Hi & Hb & Hs & Hbefore); simpl in *.
      * left. injection Hi as -> ->. exists b. split; [done|].
        apply list_elem_of_filter. split; [done | by apply elem_of_elements].
      * right. exists i, nbrs. split_and!; auto.
        -- intros [->%elem_of_singleton|?]%elem_of_union; [|done].
           by apply (Hbefore 0 nbrs0); [lia|].
        -- intros j nb Hj. apply (Hbefore (S j) nb). lia.
Qed.

Lemma edges_iter_fst seen items a b :
  (a, b) ∈ edges_iter seen items → a ∈ items.*1.
Proof.
  intros (i & nbrs & Hi & _)%elem_of_edges_iter.
  apply list_elem_of_lookup. exists i. by rewrite list_lookup_fmap, Hi.
Qed.

Lemma NoDup_edges_iter seen items :
  NoDup items.*1 → NoDup (edges_iter seen items).
Proof.
  revert seen. induction items as [|[n nbrs] rest IH]; intros seen Hnd; simpl.
  - constructor.
  - simpl in Hnd. apply NoDup_cons in Hnd as [Hn Hnd].
    apply NoDup_app. split_and!.
    + apply NoDup_fmap_2; [by intros x y [= ->]|].
      apply NoDup_filter, NoDup_elements.
    + intros [a b] (nbr & [= -> ->] & _)%list_elem_of_fmap Hin%edges_iter_fst.
      done.
    + by apply IH.
Qed.

Lemma items_key_unique (items : list (string * gset string)) i j k x y :
  NoDup items.*1 → items !! i = Some (k, x) → items !! j = Some (k, y) → i = j.
Proof.
  intros Hnd Hi Hj.
  apply (NoDup_lookup _ i j k Hnd); by rewrite list_lookup_fmap, ?Hi, ?Hj.
Qed.

Lemma edges_NoDup g : NoDup (edges g).
Proof. apply NoDup_edges_iter, NoDup_fst_map_to_list. Qed.

Lemma edges_has_edge g a b : (a, b) ∈ edges g → has_edge g a b.
Proof.
  intros (i & nbrs & Hi & Hb & _)%elem_of_edges_iter.
  apply has_edge_lookup. exists nbrs. split; [|done].
  by apply elem_of_map_to_list, list_elem_of_lookup_2 with i.
Qed.

Lemma edges_one_direction g a b :
  (a, b) ∈ edges g → (b, a) ∈ edges g → a = b.
Proof.
  intros (i & na & Hi & _ & _ & Hbi)%elem_of_edges_iter
         (j & nb & Hj & _ & _ & Haj)%elem_of_edges_iter.
  destruct (decide (a = b)) as [|Hne]; [done|]. exfalso.
  destruct (Nat.lt_trichotomy i j) as [Hlt|[->|Hlt]].
  - by apply (Haj i na).
  - congruence.
  - by apply (Hbi j nb).
Qed.

Lemma has_edge_edges g a b :
  wf g → has_edge g a b → (a, b) ∈ edges g ∨ (b, a) ∈ edges g.
Proof.
  intros Hwf Hab. pose proof (wf_sym _ Hwf _ _ Hab) as Hba.
  apply has_edge_lookup in Hab as (na & Ha & Hbna).
  apply has_edge_lookup in Hba as (nb & Hb & Hanb).
  apply elem_of_map_to_list, list_elem_of_lookup_1 in Ha as [i Hi].
  apply elem_of_map_to_list, list_elem_of_lookup_1 in Hb as [j Hj].
  pose proof (NoDup_fst_map_to_list (adj g)) as Hnd.
  destruct (decide (i ≤ j)%nat) as [Hle|Hgt].
  - left. apply elem_of_edges_iter. exists i, na. split_and!; auto.
    + set_solver.
    + intros k nb' Hk Hk'. pose proof (items_key_unique _ _ _ _ _ _ Hnd Hk' Hj). lia.
  - right. apply elem_of_edges_iter. exists j, nb. split_and!; auto.
    + set_solver.
    + intros k na' Hk Hk'. pose proof (items_key_unique _ _ _ _ _ _ Hnd Hk' Hi). lia.
Qed.

Lemma filter_none_length {A} (P : A → Prop) `{∀ x, Decision (P x)} (l : list A) :
  (∀ x, x ∈ l → ¬ P x) → length (filter P l) = 0.
Proof.
  induction l as [|x l IH]; intros Hno; [done|].
  rewrite filter_cons. destruct (decide (P x)) as [HP|_].
  - destruct (Hno x); [left | done].
  - apply IH. intros y Hy. apply Hno. by right.
Qed.

Lemma joins_once (l : list (string * string)) a b :
  NoDup l →
  (a, b) ∈ l ∨ (b, a) ∈ l →
  ((a, b) ∈ l → (b, a) ∈ l → a = b) →
  length (filter (joins a b) l) = 1.
Proof.
  induction l as [|e l IH]; intros Hnd Hin Hone.
  - destruct Hin as [Hin|Hin]; by apply elem_of_nil in Hin.
  - apply NoDup_cons in Hnd as [He Hnd]. rewrite filter_cons.
    destruct (decide (joins a b e)) as [Hj|Hj].
    + simpl. f_equal. apply filter_none_length. intros x Hx Hjx.
      destruct Hj as [-> | ->], Hjx as [-> | ->]; try done.
      * assert (a = b) as -> by (apply Hone; [left | by right]). done.
      * assert (a = b) as -> by (apply Hone; [by right | left]). done.
    + apply IH; [done| |].
      * unfold joins in Hj. rewrite !elem_of_cons in Hin. naive_solver.
      * intros ??. apply Hone; by right.
Qed.

(** An edge of the graph is listed once by [edges()]. *)
Lemma multiplicity_has_edge g a b :
  wf g → has_edge g a b → multiplicity g a b = 1.
Proof.
  intros Hwf Hab. apply joins_once.
  - apply edges_NoDup.
  - by apply has_edge_edges.
  - apply edges_one_direction.
Qed.

(** Every listed edge comes from [pairs], so there are no more edges than
    pairs. *)
Lemma edges_length_le g (pairs : list (string * string)) :
  (∀ a b, has_edge g a b → (a, b) ∈ pairs ∨ (b, a) ∈ pairs) →
  (length (edges g) ≤ length pairs)%nat.
Proof.
  intros Hfrom.
  set (orient := fun e : string * string =>
                   if decide (e ∈ pairs) then e else (e.2, e.1)).
  rewrite <- (length_fmap orient (edges g)).
  apply submseteq_length, NoDup_submseteq.
  - apply NoDup_fmap_2_strong; [|apply edges_NoDup].
    intros [a b] [c d] Hab Hcd. unfold orient. simpl.
    repeat case_decide; intros [= -> ->]; try done.
    + assert (d = c) as -> by (by apply (edges_one_direction g)). done.
    + assert (c = d) as -> by (by apply (edges_one_direction g)). done.
  - intros e ([a b] & -> & Hin)%list_elem_of_fmap. unfold orient.
    case_decide as Hp; [done|]. simpl.
    apply edges_has_edge, Hfrom in Hin as [?|?]; done.
Qed.

End graph_facts.

(** ** The two loops *)

Section loops.
Import networkx graph_facts.

Lemma getitem_Ok {V} (d : gmap string V) k v :
  getitem d k = Ok v ↔ d !! k = Some v.
Proof. unfold getitem. destruct (d !! k); naive_solver. Qed.

Lemma getitem_Raise {V} (d : gmap string V) k e :
  getitem d k = Raise e ↔ d !! k = None ∧ e = KeyError k.
Proof. unfold getitem. destruct (d !! k); naive_solver. Qed.

Lemma bind_Ok {A B} (f : A → result B) (r : result A) b :
  r ≫= f = Ok b ↔ ∃ a, r = Ok a ∧ f a = Ok b.
Proof. destruct r; simpl; naive_solver. Qed.

Lemma for_each_app {S X} (body : S → X → result S) st xs ys :
  for_each body st (xs ++ ys) = for_each body st xs ≫= fun st' => for_each body st' ys.
Proof.
  revert st. induction xs as [|x xs IH]; intros st; simpl; [done|].
  destruct (body st x) as [st'|e]; simpl; [apply IH | done].
Qed.

(** A loop that raises does so in one of its iterations. *)
Lemma for_each_Raise {S X} (body : S → X → result S) st xs e :
  for_each body st xs = Raise e → ∃ st' x, x ∈ xs ∧ body st' x = Raise e.
Proof.
  revert st. induction xs as [|x xs IH]; intros st; simpl; [done|].
  destruct (body st x) as [st'|e'] eqn:Hb; simpl.
  - intros (st'' & y & ? & ?)%IH. exists st'', y. split; [by right | done].
  - intros [= ->]. exists st, x. split; [left | done].
Qed.

(** *** Entries *)

Lemma entry_record_Some el id d :
  entry_record el = Some (id, d) ↔
    ∃ name title,
      ET.attrib el !! "type" = Some (descriptor_kind d) ∧
      ET.attrib el !! "name" = Some name ∧
      ET.attrib el !! "id" = Some id ∧
      graphics_title el = Some title ∧
      d = (name, normalize_title title, descriptor_kind d).
Proof.
  unfold entry_record.
  destruct (ET.attrib el !! "type") as [ty|]; simpl; [|naive_solver].
  destruct (ET.attrib el !! "name") as [name|]; simpl; [|naive_solver].
  destruct (ET.attrib el !! "id") as [id'|]; simpl; [|naive_solver].
  destruct (graphics_title el) as [title|]; simpl; [|naive_solver].
  destruct d as [[n t] k]. unfold descriptor_kind. simpl. naive_solver.
Qed.

Lemma entry_update_skip kinds st el :
  ¬ accepted kinds el → entry_update kinds st el = st.
Proof.
  intros Hno. unfold entry_update.
  destruct (entry_record el) as [[id d]|] eqn:Hrec; [|done].
  case_decide as Hin; [|done]. destruct Hno.
  apply entry_record_Some in Hrec as (? & ? & Hty & _). by eexists.
Qed.

Lemma entry_update_accept kinds st el id d :
  accepted kinds el → entry_record el = Some (id, d) →
  entry_update kinds st el =
    (<[id := d]> st.1,
     if decide (descriptor_kind d = "gene")
     then add_node st.2 (descriptor_label d) else st.2).
Proof.
  intros (ty & Hty & Hin) Hrec. unfold entry_update. rewrite Hrec.
  apply entry_record_Some in Hrec as (? & ? & Hty' & _).
  rewrite decide_True; [done | congruence].
Qed.

Lemma entry_body_readable kinds st el :
  entry_readable kinds el →
  entry_body kinds st el = Ok (entry_update kinds st el).
Proof.
  intros ([ty Hty] & [id Hid] & Hacc). destruct st as [nodes graph].
  unfold entry_body.
  rewrite (proj2 (getitem_Ok _ _ _) Hty), (proj2 (getitem_Ok _ _ _) Hid). simpl.
  case_decide as Hin.
  - assert (accepted kinds el) as Ha by by exists ty.
    destruct (Hacc Ha) as [[id' d] Hrec].
    rewrite (entry_update_accept _ _ _ _ _ Ha Hrec).
    apply entry_record_Some in Hrec as (name & title & Hty' & Hname & Hid' & Ht & ->).
    unfold graphics_title in Ht.
    destruct (ET.find "graphics" el) as [g|]; simpl in Ht; [|done].
    rewrite (proj2 (getitem_Ok _ _ _) Hname). simpl.
    rewrite (proj2 (getitem_Ok _ _ _) Ht). simpl.
    unfold descriptor_kind, descriptor_label in *. simpl in *.
    replace id' with id by congruence.
    replace (((name, normalize_title title, ty) : descriptor).2) with ty by done.
    rewrite Hty in Hty'. injection Hty' as <-. by case_decide.
  - rewrite entry_update_skip; [done|]. intros (ty' & Hty' & ?). congruence.
Qed.

Lemma entry_body_Ok kinds st el st' :
  entry_body kinds st el = Ok st' →
  entry_readable kinds el ∧ st' = entry_update kinds st el.
Proof.
  intros Hbody.
  assert (entry_readable kinds el) as Hr; [|split; [done|]].
  - destruct st as [nodes graph]. unfold entry_body in Hbody.
    apply bind_Ok in Hbody as (ty0 & Hty%getitem_Ok & Hbody).
    apply bind_Ok in Hbody as (id0 & Hid%getitem_Ok & Hbody).
    apply bind_Ok in Hbody as (ty & Hty1%getitem_Ok & Hbody).
    split_and!; eauto. intros (ty' & Hty' & Hin).
    assert (ty' = ty) as -> by congruence.
    rewrite decide_True in Hbody by done.
    apply bind_Ok in Hbody as (name & Hname%getitem_Ok & Hbody).
    apply bind_Ok in Hbody as (id & Hid1%getitem_Ok & Hbody).
    apply bind_Ok in Hbody as (ga & Hga & Hbody).
    apply bind_Ok in Hbody as (title & Ht%getitem_Ok & Hbody).
    exists (id, (name, normalize_title title, ty)).
    apply entry_record_Some. exists name, title.
    unfold graphics_title. destruct (ET.find "graphics" el); [|done].
    injection Hga as <-. done.
  - rewrite entry_body_readable in Hbody by done. by injection Hbody.
Qed.

Lemma entries_loop_Ok kinds st els st' :
  for_each (entry_body kinds) st els = Ok st' →
  Forall (entry_readable kinds) els ∧ st' = foldl (entry_update kinds) st els.
Proof.
  revert st. induction els as [|el els IH]; intros st; simpl.
  - by intros [= <-].
  - intros (st1 & [Hr ->]%entry_body_Ok & [Hall ->]%IH)%bind_Ok.
    split; [by constructor | done].
Qed.

Lemma entries_loop_readable kinds st els :
  Forall (entry_readable kinds) els →
  for_each (entry_body kinds) st els = Ok (foldl (entry_update kinds) st els).
Proof.
  intros Hall. revert st. induction Hall as [|el els Hr _ IH]; intros st; simpl.
  - done.
  - rewrite entry_body_readable by done. simpl. apply IH.
Qed.

(** What the entries pass leaves in the table and in the graph. *)

Lemma entry_update_cases kinds st el :
  (entry_update kinds st el = st ∧
     ∀ id d, accepted kinds el → entry_record el ≠ Some (id, d)) ∨
  (∃ id d, accepted kinds el ∧ entry_record el = Some (id, d) ∧
     entry_update kinds st el =
       (<[id := d]> st.1,
        if decide (descriptor_kind d = "gene")
        then add_node st.2 (descriptor_label d) else st.2)).
Proof.
  destruct (decide (accepted kinds el)) as [Ha|Hna].
  - destruct (entry_record el) as [[id d]|] eqn:Hrec.
    + right. exists id, d. split_and!; [done..|]. by apply entry_update_accept.
    + left. split; [|done]. unfold entry_update. by rewrite Hrec.
  - left. split; [by apply entry_update_skip | done].
Qed.

Lemma entries_table_keep kinds st els id :
  (∀ el d, el ∈ els → accepted kinds el → entry_record el ≠ Some (id, d)) →
  (foldl (entry_update kinds) st els).1 !! id = st.1 !! id.
Proof.
  revert st. induction els as [|el els IH]; intros st Hno; simpl; [done|].
  rewrite IH by (intros ????; eapply Hno; [by right | done]).
  destruct (entry_update_cases kinds st el) as [[-> _]|(id' & d & Ha & Hrec & ->)];
    [done|]. simpl.
  apply lookup_insert_ne. intros ->. by apply (Hno el d); [left|..].
Qed.

Lemma entries_table_last kinds st l1 el l2 id d :
  accepted kinds el → entry_record el = Some (id, d) →
  (∀ el' d', el' ∈ l2 → accepted kinds el' → entry_record el' ≠ Some (id, d')) →
  (foldl (entry_update kinds) st (l1 ++ el :: l2)).1 !! id = Some d.
Proof.
  intros Ha Hrec Hlater. rewrite foldl_app. simpl.
  rewrite entries_table_keep by done.
  rewrite (entry_update_accept _ _ _ _ _ Ha Hrec). simpl.
  apply lookup_insert_eq.
Qed.

Lemma entries_table_origin kinds st els id d :
  (foldl (entry_update kinds) st els).1 !! id = Some d →
  st.1 !! id = Some d ∨
  ∃ el, el ∈ els ∧ accepted kinds el ∧ entry_record el = Some (id, d).
Proof.
  revert st. induction els as [|el els IH]; intros st; simpl; [by left|].
  intros [Hst|(el' & ? & ? & ?)]%IH.
  - destruct (entry_update_cases kinds st el) as [[Heq _]|(id' & d' & Ha & Hrec & Heq)];
      rewrite Heq in Hst; [by left|]. simpl in Hst.
    destruct (decide (id' = id)) as [->|Hne].
    + rewrite lookup_insert_eq in Hst. injection Hst as ->.
      right. exists el. split_and!; [left|done..].
    + rewrite lookup_insert_ne in Hst by done. by left.
  - right. exists el'. split_and!; [by right|done..].
Qed.

Lemma entries_table_mono kinds st els id :
  is_Some (st.1 !! id) → is_Some ((foldl (entry_update kinds) st els).1 !! id).
Proof.
  revert st. induction els as [|el els IH]; intros st Hst; simpl; [done|].
  apply IH.
  destruct (entry_update_cases kinds st el) as [[-> _]|(id' & d & _ & _ & ->)];
    [done|]. simpl.
  apply lookup_insert_is_Some. destruct (decide (id' = id)); auto.
Qed.

Lemma entries_table_dom kinds st els el id d :
  el ∈ els → accepted kinds el → entry_record el = Some (id, d) →
  is_Some ((foldl (entry_update kinds) st els).1 !! id).
Proof.
  intros Hin Ha Hrec. revert st.
  induction els as [|el' els IH]; intros st; [by apply elem_of_nil in Hin|].
  simpl. apply elem_of_cons in Hin as [<-|?]; [|by apply IH].
  apply entries_table_mono.
  rewrite (entry_update_accept _ _ _ _ _ Ha Hrec). simpl.
  rewrite lookup_insert_eq. by eexists.
Qed.

Lemma entries_graph_node kinds st els l :
  l ∈ node (foldl (entry_update kinds) st els).2 ↔
    l ∈ node st.2 ∨ gene_label_in kinds els l.
Proof.
  revert st. induction els as [|el els IH]; intros st; simpl.
  - split; [by left|]. intros [?|(el & ? & ? & []%elem_of_nil & _)]. done.
  - rewrite IH.
    destruct (entry_update_cases kinds st el) as [[-> Hno]|(id & d & Ha & Hrec & ->)].
    + split; (intros [?|(el' & id' & d' & Hin & Ha' & Hrec' & Hk & Hl)]; [by left|]);
        right; exists el', id', d'; split_and!; try done.
      * by right.
      * apply elem_of_cons in Hin as [->|?]; [|done]. by destruct (Hno id' d').
    + simpl. split.
      * intros [Hl|(el' & id' & d' & Hin & Ha' & Hrec' & Hk & Hl)].
        -- case_decide as Hg; [|by left].
           rewrite node_add_node in Hl. apply elem_of_union in Hl as [->%elem_of_singleton|?];
             [|by left].
           right. exists el, id, d. split_and!; [left|done..].
        -- right. exists el', id', d'. split_and!; [by right|done..].
      * intros [Hl|(el' & id' & d' & Hin & Ha' & Hrec' & Hk & Hl)].
        -- left. case_decide; [|done]. rewrite node_add_node. set_solver.
        -- apply elem_of_cons in Hin as [->|?].
           ++ left. assert (d' = d) as -> by congruence.
              rewrite decide_True by done. rewrite node_add_node, Hl. set_solver.
           ++ right. by exists el', id', d'.
Qed.

Lemma entries_graph_wf kinds st els :
  wf st.2 →
  wf (foldl (entry_update kinds) st els).2 ∧
  ∀ u v, has_edge (foldl (entry_update kinds) st els).2 u v ↔ has_edge st.2 u v.
Proof.
  revert st. induction els as [|el els IH]; intros st Hwf; simpl; [done|].
  destruct (entry_update_cases kinds st el) as [[-> _]|(id & d & _ & _ & ->)];
    [by apply IH|].
  case_decide.
  - destruct (IH (<[id:=d]> st.1, add_node st.2 (descriptor_label d))) as [? Hedge];
      [by apply wf_add_node|].
    split; [done|]. intros u v. rewrite Hedge. simpl. by apply has_edge_add_node.
  - by apply (IH (<[id:=d]> st.1, st.2)).
Qed.

(** *** Relations *)

Lemma relation_body_resolved nodes g rel p :
  resolve nodes rel = Some p → relation_body nodes g rel = Ok (add_pair g p).
Proof.
  unfold resolve, relation_body. intros Hres.
  destruct (ET.attrib rel !! "entry1") as [e1|] eqn:H1; simpl in Hres; [|done].
  destruct (ET.attrib rel !! "entry2") as [e2|] eqn:H2; simpl in Hres; [|done].
  destruct (nodes !! e1) as [d1|] eqn:Hd1; simpl in Hres; [|done].
  destruct (nodes !! e2) as [d2|] eqn:Hd2; simpl in Hres; [|done].
  injection Hres as <-.
  rewrite (proj2 (getitem_Ok _ _ _) H1). simpl.
  rewrite (proj2 (getitem_Ok _ _ _) H2). simpl.
  rewrite (proj2 (getitem_Ok _ _ _) Hd1). simpl.
  by rewrite (proj2 (getitem_Ok _ _ _) Hd2).
Qed.

Lemma relation_body_unresolved nodes g rel :
  resolve nodes rel = None → ∃ k, relation_body nodes g rel = Raise (KeyError k).
Proof.
  unfold resolve, relation_body, getitem. intros Hres.
  destruct (ET.attrib rel !! "entry1") as [e1|]; simpl in *; [|by eexists].
  destruct (ET.attrib rel !! "entry2") as [e2|]; simpl in *; [|by eexists].
  destruct (nodes !! e1) as [d1|]; simpl in *; [|by eexists].
  destruct (nodes !! e2) as [d2|]; simpl in *; [done | by eexists].
Qed.

Lemma unresolved_endpoint_resolve nodes rel :
  unresolved_endpoint nodes rel → resolve nodes rel = None.
Proof.
  intros (key & id & Hkey & Hattr & Hnone). unfold resolve.
  destruct (ET.attrib rel !! "entry1") as [e1|] eqn:H1; simpl; [|done].
  destruct (ET.attrib rel !! "entry2") as [e2|] eqn:H2; simpl; [|done].
  destruct (nodes !! e1) as [d1|] eqn:Hd1; simpl; [|done].
  destruct (nodes !! e2) as [d2|] eqn:Hd2; simpl; [|done].
  rewrite !elem_of_cons in Hkey. destruct Hkey as [->|[->|[]%elem_of_nil]]; congruence.
Qed.

Lemma relations_loop_Ok nodes g rels g' :
  for_each (relation_body nodes) g rels = Ok g' →
  ∃ pairs, Forall2 (fun rel p => resolve nodes rel = Some p) rels pairs ∧
           g' = foldl add_pair g pairs.
Proof.
  revert g. induction rels as [|rel rels IH]; intros g; simpl.
  - intros [= <-]. exists []. by split; [constructor|].
  - destruct (resolve nodes rel) as [p|] eqn:Hres.
    + rewrite (relation_body_resolved _ _ _ _ Hres). simpl.
      intros (pairs & Hall & ->)%IH. exists (p :: pairs). by split; [constructor|].
    + destruct (relation_body_unresolved nodes g rel Hres) as [k ->]. done.
Qed.

Lemma relations_loop_resolved nodes g rels pairs :
  Forall2 (fun rel p => resolve nodes rel = Some p) rels pairs →
  for_each (relation_body nodes) g rels = Ok (foldl add_pair g pairs).
Proof.
  intros Hall. revert g. induction Hall as [|rel p rels pairs Hres _ IH]; intros g.
  - done.
  - simpl. rewrite (relation_body_resolved _ _ _ _ Hres). simpl. apply IH.
Qed.

Lemma relations_loop_unresolved nodes g rels rel :
  rel ∈ rels → resolve nodes rel = None →
  ∃ k, for_each (relation_body nodes) g rels = Raise (KeyError k).
Proof.
  intros Hin Hnone. revert g.
  induction rels as [|r rels IH]; intros g; [by apply elem_of_nil in Hin|].
  simpl. destruct (resolve nodes r) as [p|] eqn:Hres.
  - rewrite (relation_body_resolved _ _ _ _ Hres). simpl. apply IH.
    apply elem_of_cons in Hin as [->|?]; [congruence | done].
  - destruct (relation_body_unresolved nodes g r Hres) as [k ->]. by exists k.
Qed.

Lemma add_pairs_wf g pairs : wf g → wf (foldl add_pair g pairs).
Proof.
  revert g. induction pairs as [|p pairs IH]; intros g Hwf; simpl; [done|].
  by apply IH, wf_add_edge.
Qed.

Lemma add_pairs_has_edge g pairs a b :
  wf g →
  has_edge (foldl add_pair g pairs) a b ↔
    has_edge g a b ∨ (a, b) ∈ pairs ∨ (b, a) ∈ pairs.
Proof.
  revert g. induction pairs as [|[u v] pairs IH]; intros g Hwf; simpl.
  - rewrite !elem_of_nil. tauto.
  - rewrite IH by by apply wf_add_edge. unfold add_pair. simpl.
    rewrite has_edge_add_edge by done. rewrite !elem_of_cons. naive_solver.
Qed.

Lemma add_pairs_node g pairs l :
  l ∈ node (foldl add_pair g pairs) ↔
    l ∈ node g ∨ ∃ p, p ∈ pairs ∧ (l = p.1 ∨ l = p.2).
Proof.
  revert g. induction pairs as [|[u v] pairs IH]; intros g; simpl.
  - split; [by left|]. intros [?|(p & []%elem_of_nil & _)]. done.
  - rewrite IH. unfold add_pair. rewrite node_add_edge. simpl.
    setoid_rewrite elem_of_cons. rewrite !elem_of_union, !elem_of_singleton.
    split.
    + intros [[[Hl|Hl]|?]|(p & ? & ?)].
      * right. exists (u, v). naive_solver.
      * right. exists (u, v). naive_solver.
      * by left.
      * right. exists p. naive_solver.
    + intros [?|(p & [-> | ?] & Hl)].
      * auto.
      * simpl in Hl. naive_solver.
      * right. by exists p.
Qed.

End loops.

(** ** The whole function *)

Section whole.
Import networkx graph_facts.

Lemma entries_table_graph_irrelevant kinds m g g' els :
  (foldl (entry_update kinds) (m, g) els).1 =
  (foldl (entry_update kinds) (m, g') els).1.
Proof.
  revert m g g'. induction els as [|el els IH]; intros m g g'; simpl; [done|].
  unfold entry_update at 2 4. destruct (entry_record el) as [[id d]|]; [|apply IH].
  case_decide; [|apply IH]. simpl. case_decide; apply IH.
Qed.

(** What a returned value was computed from. *)
Lemma KGML2Graph_Ok xmlfile filetype o :
  KGML2Graph xmlfile filetype = Ok o →
  let kinds := entriestype filetype in
  let tree := out_tree o in
  ∃ title pairs,
    xmlfile = ET.Document tree ∧
    ET.attrib tree !! "title" = Some title ∧
    Forall (entry_readable kinds) (ET.getiterator "entry" tree) ∧
    out_nodes o = descriptor_table filetype tree ∧
    Forall2 (fun rel p => resolve (out_nodes o) rel = Some p)
            (ET.getiterator "relation" tree) pairs ∧
    out_graph o =
      foldl add_pair
        (foldl (entry_update kinds) (∅, set_title empty title)
               (ET.getiterator "entry" tree)).2 pairs ∧
    out_genes o = [] ∧ out_reactions o = ∅.
Proof.
  unfold KGML2Graph. intros Hrun.
  apply bind_Ok in Hrun as (tree & Hparse & Hrun).
  apply bind_Ok in Hrun as (rattrib & [= <-] & Hrun).
  apply bind_Ok in Hrun as (title & Htitle%getitem_Ok & Hrun).
  apply bind_Ok in Hrun as ([nodes g1] & [Hread Hst]%entries_loop_Ok & Hrun).
  apply bind_Ok in Hrun as (g2 & (pairs & Hres & ->)%relations_loop_Ok & [= <-]).
  simpl. exists title, pairs.
  assert (nodes = descriptor_table filetype tree) as Hnodes.
  { unfold descriptor_table.
    rewrite (entries_table_graph_irrelevant _ _ _ (set_title empty title)).
    by rewrite <- Hst. }
  split_and!; try done.
  - destruct xmlfile as [| |root]; simpl in Hparse; congruence.
  - by rewrite <- Hst.
Qed.

(** A document with a title, readable entries and resolvable relations is
    converted. *)
Lemma KGML2Graph_runs tree filetype title :
  ET.attrib tree !! "title" = Some title →
  Forall (entry_readable (entriestype filetype)) (ET.getiterator "entry" tree) →
  Forall (fun rel => is_Some (resolve (descriptor_table filetype tree) rel))
         (ET.getiterator "relation" tree) →
  ∃ o, KGML2Graph (ET.Document tree) filetype = Ok o ∧ out_tree o = tree.
Proof.
  intros Htitle Hread Hres. unfold KGML2Graph. simpl.
  rewrite (proj2 (getitem_Ok _ _ _) Htitle). simpl.
  rewrite (entries_loop_readable _ _ _ Hread). simpl.
  destruct (foldl _ _ _) as [nodes g1] eqn:Hst.
  assert (nodes = descriptor_table filetype tree) as ->.
  { unfold descriptor_table.
    rewrite (entries_table_graph_irrelevant _ _ _ (set_title empty title)).
    by rewrite Hst. }
  assert (∃ pairs, Forall2 (fun rel p =>
            resolve (descriptor_table filetype tree) rel = Some p)
            (ET.getiterator "relation" tree) pairs) as [pairs Hpairs].
  { induction Hres as [|rel rels [p Hp] _ [pairs IH]].
    - exists []. constructor.
    - exists (p :: pairs). by constructor. }
  rewrite (relations_loop_resolved _ _ _ _ Hpairs). simpl. by eexists.
Qed.

Lemma resolved_pairs_elem nodes rels pairs p :
  Forall2 (fun rel q => resolve nodes rel = Some q) rels pairs →
  p ∈ pairs ↔ ∃ rel, rel ∈ rels ∧ resolve nodes rel = Some p.
Proof.
  induction 1 as [|rel q rels pairs Hq _ IH].
  - split; [by intros ?%elem_of_nil | by intros (? & ?%elem_of_nil & _)].
  - rewrite elem_of_cons, IH. setoid_rewrite elem_of_cons. split.
    + intros [-> | (r & ? & ?)]; [exists rel | exists r]; auto.
    + intros (r & [-> | ?] & Hr); [left; congruence | right; eauto].
Qed.

Lemma edge_endpoint_has_edge g l :
  wf g → edge_endpoint g l ↔ ∃ x, has_edge g l x.
Proof.
  intros Hwf. split.
  - intros ([a b] & Hin%edges_has_edge & [-> | ->]); simpl.
    + by exists b.
    + exists a. by apply (wf_sym _ Hwf).
  - intros [x [Hin|Hin]%has_edge_edges]; [| |done].
    + exists (l, x). auto.
    + exists (x, l). auto.
Qed.

(** The graph a successful conversion returns: well formed, with an edge
    exactly between the two labels of each relation. *)
Lemma KGML2Graph_graph xmlfile filetype o :
  KGML2Graph xmlfile filetype = Ok o →
  wf (out_graph o) ∧
  (∀ l, l ∈ node (out_graph o) ↔
     gene_label_in (entriestype filetype) (ET.getiterator "entry" (out_tree o)) l ∨
     ∃ x, has_edge (out_graph o) l x) ∧
  (∀ a b, has_edge (out_graph o) a b ↔
     ∃ rel, rel ∈ ET.getiterator "relation" (out_tree o) ∧
            (resolve (out_nodes o) rel = Some (a, b) ∨
             resolve (out_nodes o) rel = Some (b, a))) ∧
  (length (edges (out_graph o)) ≤ length (ET.getiterator "relation" (out_tree o)))%nat.
Proof.
  intros (title & pairs & _ & _ & _ & _ & Hres & Hg & _)%KGML2Graph_Ok.
  set (kinds := entriestype filetype) in *.
  set (st0 := (∅, set_title empty title) : gmap string descriptor * Graph) in *.
  destruct (entries_graph_wf kinds st0 (ET.getiterator "entry" (out_tree o)))
    as [Hwf1 Hedge1]; [apply wf_set_title, wf_empty|].
  assert (∀ a b, has_edge (out_graph o) a b ↔ (a, b) ∈ pairs ∨ (b, a) ∈ pairs)
    as Hedge.
  { intros a b. rewrite Hg, add_pairs_has_edge, Hedge1 by done.
    unfold has_edge at 1. simpl. rewrite lookup_empty. set_solver. }
  split_and!.
  - rewrite Hg. by apply add_pairs_wf.
  - intros l. rewrite Hg at 1. rewrite add_pairs_node, entries_graph_node.
    simpl. split.
    + intros [[[]%not_elem_of_empty|?]|([a b] & Hp & [-> | ->])]; [by left|..];
        right; simpl.
      * exists b. apply Hedge. by left.
      * exists a. apply Hedge. by right.
    + intros [?|[x [Hp|Hp]%Hedge]]; [by left; right|..]; right.
      * exists (l, x). auto.
      * exists (x, l). auto.
  - intros a b. rewrite Hedge, !(resolved_pairs_elem _ _ _ _ Hres). naive_solver.
  - rewrite (Forall2_length _ _ _ Hres). apply edges_length_le.
    intros a b. by rewrite Hedge.
Qed.

Lemma KGML2Graph_Ok_inputs tree filetype o :
  KGML2Graph (ET.Document tree) filetype = Ok o →
  out_tree o = tree ∧ out_nodes o = descriptor_table filetype tree.
Proof.
  intros (_ & _ & [= Htree] & _ & _ & Hnodes & _)%KGML2Graph_Ok.
  by rewrite Hnodes, <- Htree.
Qed.

End whole.

(** ** The specification's properties *)

(** C9: whenever the conversion returns, its two reserved outputs, the gene
    list and the reaction dictionary, are empty. *)
Theorem reserved_outputs_empty xmlfile filetype o :
  KGML2Graph xmlfile filetype = Ok o →
  out_genes o = [] ∧ out_reactions o = ∅.
Proof.
  intros (title & pairs & _ & _ & _ & _ & _ & _ & Hgenes & Hreactions)%KGML2Graph_Ok.
  done.
Qed.

Lemma reserved_outputs_empty_witness :
  ∃ o, KGML2Graph (ET.Document samples.hsa) "organism" = Ok o ∧
       out_genes o = [] ∧ out_reactions o = ∅.
Proof.
  destruct (KGML2Graph (ET.Document samples.hsa) "organism") as [o|e] eqn:Hrun.
  - exists o. split; [reflexivity|].
    exact (reserved_outputs_empty _ _ _ Hrun).
  - exfalso. vm_compute in Hrun. discriminate.
Defined.


(** C4: a title that ends in ['...'] loses exactly these three characters,
    any other title is kept as it is, and ["ALG2..."] becomes ["ALG2"]. *)
Theorem label_normalization title :
  (∀ p, title = p +:+ "..." → normalize_title title = p) ∧
  (¬ ends_with_marker title → normalize_title title = title) ∧
  normalize_title "ALG2..." = "ALG2".
Proof.
  split_and!.
  - intros p ->. apply normalize_title_marked.
  - intros Hno. apply normalize_title_unmarked. intros p ->. apply Hno. by exists p.
  - apply (normalize_title_marked "ALG2").
Qed.

Lemma label_normalization_witness :
  normalize_title "ALG2..." = "ALG2" ∧ normalize_title "ALG8" = "ALG8".
Proof.
  split.
  - apply (proj1 (label_normalization "ALG2...") "ALG2"). reflexivity.
  - apply (proj1 (proj2 (label_normalization "ALG8"))).
    rewrite ends_with_marker_test. vm_compute. discriminate.
Defined.

(** C7: on a label that does not end in ['...'] normalization changes
    nothing, however often it is applied. *)
Theorem normalization_idempotent label :
  ¬ ends_with_marker label →
  normalize_title label = label ∧
  normalize_title (normalize_title label) = normalize_title label.
Proof.
  intros Hno.
  assert (normalize_title label = label) as Heq.
  { apply normalize_title_unmarked. intros p ->. apply Hno. by exists p. }
  by rewrite !Heq.
Qed.

Lemma normalization_idempotent_witness :
  (¬ ends_with_marker "ALG2") ∧
  normalize_title "ALG2" = "ALG2" ∧
  normalize_title (normalize_title "ALG2") = normalize_title "ALG2".
Proof.
  assert (¬ ends_with_marker "ALG2") as Hno.
  { rewrite ends_with_marker_test. vm_compute. discriminate. }
  split; [exact Hno | exact (normalization_idempotent "ALG2" Hno)].
Defined.

(** A title with the marker twice keeps one after a first normalization. *)
Remark normalization_twice_differs :
  normalize_title "ALG2......" = "ALG2..." ∧
  normalize_title (normalize_title "ALG2......") = "ALG2".
Proof. split; reflexivity. Qed.

(** C1, as the code has it: every flavor other than ["organism"] and ["o"],
    recognized or not, selects the generic mode; the flavor is never a reason
    to raise, and the document is parsed before the flavor is looked at. *)
Theorem other_flavor_is_generic xmlfile filetype :
  filetype ∉ ["organism"; "o"] →
  entriestype filetype = ["ortholog"; "map"; "compound"] ∧
  KGML2Graph xmlfile filetype = KGML2Graph xmlfile "generic" ∧
  KGML2Graph ET.Malformed filetype = Raise ParseError.
Proof.
  intros Hft.
  assert (entriestype filetype = ["ortholog"; "map"; "compound"]) as Hkinds.
  { unfold entriestype. by rewrite decide_False. }
  split_and!; [done| |done].
  unfold KGML2Graph. by rewrite Hkinds.
Qed.

Lemma other_flavor_is_generic_witness :
  ("bogus" ∉ ["organism"; "o"]) ∧
  entriestype "bogus" = ["ortholog"; "map"; "compound"] ∧
  KGML2Graph (ET.Document samples.ko) "bogus"
    = KGML2Graph (ET.Document samples.ko) "generic" ∧
  KGML2Graph ET.Malformed "bogus" = Raise ParseError.
Proof.
  assert ("bogus" ∉ ["organism"; "o"]) as Hft by compute_done.
  split; [exact Hft|].
  exact (other_flavor_is_generic (ET.Document samples.ko) "bogus" Hft).
Defined.

(** C1, as stated, fails: the flavor ["bogus"] is none of the recognized
    ones, yet the conversion returns a graph; and on a malformed document the
    exception is the parser's. *)
Lemma unrecognized_flavor_converts :
  ("bogus" ∉ pathwaytype_choices) ∧
  match KGML2Graph (ET.Document samples.ko) "bogus" with
  | Ok o => networkx.nodes (out_graph o) = {["K00001"; "K00002"]}
  | Raise _ => False
  end ∧
  KGML2Graph ET.Malformed "bogus" = Raise ParseError.
Proof.
  split_and!.
  - compute_done.
  - vm_compute. reflexivity.
  - reflexivity.
Qed.

(** C2: the nodes of the graph returned for a document are exactly the
    labels of the document's accepted gene entries together with the
    endpoints of the graph's edges; the endpoints of the edges are exactly
    the labels the document's relations resolve to, so both labels of every
    relation are nodes, whatever the kind of their entries. *)
Theorem graph_node_set tree filetype o :
  KGML2Graph (ET.Document tree) filetype = Ok o →
  let g := out_graph o in
  let entries := ET.getiterator "entry" tree in
  let relations := ET.getiterator "relation" tree in
  let table := descriptor_table filetype tree in
  out_tree o = tree ∧ out_nodes o = table ∧
  (∀ l, l ∈ networkx.nodes g ↔
          gene_label_in (entriestype filetype) entries l ∨ edge_endpoint g l) ∧
  (∀ l, edge_endpoint g l ↔
          ∃ rel a b, rel ∈ relations ∧ resolve table rel = Some (a, b) ∧
                     (l = a ∨ l = b)) ∧
  (∀ rel a b, rel ∈ relations → resolve table rel = Some (a, b) →
              a ∈ networkx.nodes g ∧ b ∈ networkx.nodes g).
Proof.
  intros Hrun. simpl.
  destruct (KGML2Graph_Ok_inputs _ _ _ Hrun) as [Htree Hnodes].
  apply KGML2Graph_graph in Hrun as (Hwf & Hnode & Hedge & _).
  rewrite Htree, Hnodes in *.
  assert (∀ l, edge_endpoint (out_graph o) l ↔
            ∃ rel a b, rel ∈ ET.getiterator "relation" tree ∧
                       resolve (descriptor_table filetype tree) rel = Some (a, b) ∧
                       (l = a ∨ l = b))
    as Hend.
  { intros l. rewrite edge_endpoint_has_edge by done. split.
    - intros (x & (rel & Hin & [Hr|Hr])%Hedge).
      + exists rel, l, x. auto.
      + exists rel, x, l. auto.
    - intros (rel & a & b & Hin & Hr & [-> | ->]).
      + exists b. apply Hedge. exists rel. auto.
      + exists a. apply Hedge. exists rel. auto. }
  split_and!; [done..| | |].
  - intros l. unfold networkx.nodes.
    by rewrite Hnode, edge_endpoint_has_edge.
  - done.
  - intros rel a b Hin Hr. unfold networkx.nodes.
    split; apply Hnode; right.
    + exists b. apply Hedge. exists rel. auto.
    + exists a. apply Hedge. exists rel. auto.
Qed.

(** The graph of the sample: the compound's label is a node through its
    relation only, and the repeated relation gives one edge. *)
Example hsa_graph :
  match KGML2Graph (ET.Document samples.hsa) "organism" with
  | Ok o =>
      networkx.nodes (out_graph o) = {["ALG8"; "ALG2"; "C00002"]} ∧
      networkx.number_of_edges (out_graph o) = 2
  | Raise _ => False
  end.
Proof. vm_compute. split; reflexivity. Qed.

Lemma graph_node_set_witness :
  ∃ o, KGML2Graph (ET.Document samples.hsa) "organism" = Ok o ∧
       networkx.nodes (out_graph o) = {["ALG8"; "ALG2"; "C00002"]} ∧
       (∀ l, l ∈ networkx.nodes (out_graph o) ↔
          gene_label_in (entriestype "organism")
                        (ET.getiterator "entry" samples.hsa) l
          ∨ edge_endpoint (out_graph o) l) ∧
       "C00002" ∈ networkx.nodes (out_graph o).
Proof.
  destruct (KGML2Graph (ET.Document samples.hsa) "organism") as [o|e] eqn:Hrun.
  - exists o. split; [reflexivity|].
    pose proof hsa_graph as Hgraph. rewrite Hrun in Hgraph.
    split; [exact (proj1 Hgraph)|].
    destruct (graph_node_set samples.hsa "organism" o Hrun)
      as (_ & _ & Hnodes & _ & Hrel).
    split; [exact Hnodes|].
    apply (Hrel (samples.relation "1" "3") "ALG8" "C00002").
    + vm_compute. right. right. left.
    + vm_compute. reflexivity.
  - exfalso. vm_compute in Hrun. discriminate.
Defined.


(** A relation with an unresolved endpoint: the conversion returns no
    graph, and on a document whose title and entries are in order it raises
    a [KeyError]. *)
Lemma unresolved_relation_no_graph tree filetype rel :
  rel ∈ ET.getiterator "relation" tree →
  unresolved_endpoint (descriptor_table filetype tree) rel →
  (∃ e, KGML2Graph (ET.Document tree) filetype = Raise e) ∧
  (is_Some (ET.attrib tree !! "title") →
   Forall (entry_readable (entriestype filetype)) (ET.getiterator "entry" tree) →
   ∃ k, KGML2Graph (ET.Document tree) filetype = Raise (KeyError k)).
Proof.
  intros Hin Hun%unresolved_endpoint_resolve.
  assert (is_Some (ET.attrib tree !! "title") →
    Forall (entry_readable (entriestype filetype)) (ET.getiterator "entry" tree) →
    ∃ k, KGML2Graph (ET.Document tree) filetype = Raise (KeyError k)) as Hkey.
  { intros [title Htitle] Hread. unfold KGML2Graph. simpl.
    rewrite (proj2 (getitem_Ok _ _ _) Htitle). simpl.
    rewrite (entries_loop_readable _ _ _ Hread). simpl.
    destruct (foldl _ _ _) as [nodes g1] eqn:Hst.
    assert (nodes = descriptor_table filetype tree) as ->.
    { unfold descriptor_table.
      rewrite (entries_table_graph_irrelevant _ _ _ (networkx.set_title networkx.empty title)).
      by rewrite Hst. }
    destruct (relations_loop_unresolved _ g1 _ _ Hin Hun) as [k ->].
    by exists k. }
  split; [|done].
  destruct (KGML2Graph (ET.Document tree) filetype) as [o|e] eqn:Hrun; [|by exists e].
  exfalso.
  apply KGML2Graph_Ok in Hrun as (title & pairs & [= Htree] & _ & _ & Hnodes & Hres & _).
  rewrite Hnodes, <- Htree in Hres.
  apply list_elem_of_lookup in Hin as [i Hi].
  destruct (Forall2_lookup_l _ _ _ _ _ Hres Hi) as (p & _ & Hp). congruence.
Qed.

(** The exception of the first relation that does not resolve, when it has
    both attributes: the [KeyError] of the first id without descriptor. *)
Lemma first_unresolved_relation tree filetype l1 rel l2 e1 e2 :
  is_Some (ET.attrib tree !! "title") →
  Forall (entry_readable (entriestype filetype)) (ET.getiterator "entry" tree) →
  ET.getiterator "relation" tree = (l1 ++ rel :: l2)%list →
  Forall (fun r => is_Some (resolve (descriptor_table filetype tree) r)) l1 →
  ET.attrib rel !! "entry1" = Some e1 →
  ET.attrib rel !! "entry2" = Some e2 →
  (descriptor_table filetype tree !! e1 = None →
     KGML2Graph (ET.Document tree) filetype = Raise (KeyError e1)) ∧
  (is_Some (descriptor_table filetype tree !! e1) →
   descriptor_table filetype tree !! e2 = None →
     KGML2Graph (ET.Document tree) filetype = Raise (KeyError e2)).
Proof.
  intros [title Htitle] Hread Hsplit Hres H1 H2.
  assert (∀ k, (∀ g, relation_body (descriptor_table filetype tree) g rel
                       = Raise (KeyError k)) →
               KGML2Graph (ET.Document tree) filetype = Raise (KeyError k)) as Hrun.
  { intros k Hbody. unfold KGML2Graph. simpl.
    rewrite (proj2 (getitem_Ok _ _ _) Htitle). simpl.
    rewrite (entries_loop_readable _ _ _ Hread). simpl.
    destruct (foldl _ _ _) as [nodes g1] eqn:Hst.
    assert (nodes = descriptor_table filetype tree) as ->.
    { unfold descriptor_table.
      rewrite (entries_table_graph_irrelevant _ _ _ (networkx.set_title networkx.empty title)).
      by rewrite Hst. }
    rewrite Hsplit, for_each_app.
    assert (∃ pairs, Forall2 (fun r p =>
              resolve (descriptor_table filetype tree) r = Some p) l1 pairs)
      as [pairs Hpairs].
    { clear -Hres. induction Hres as [|r rs [p Hp] _ [pairs IH]].
      - exists []. constructor.
      - exists (p :: pairs). by constructor. }
    rewrite (relations_loop_resolved _ _ _ _ Hpairs). simpl.
    by rewrite Hbody. }
  split.
  - intros Hnone. apply Hrun. intros g. unfold relation_body, getitem.
    rewrite H1, H2. simpl. by rewrite Hnone.
  - intros [d1 Hd1] Hnone. apply Hrun. intros g. unfold relation_body, getitem.
    rewrite H1, H2. simpl. rewrite Hd1. simpl. by rewrite Hnone.
Qed.

(** C3, as the code has it: when a relation names, as [entry1] or [entry2],
    an id that has no descriptor in the table, the conversion returns no
    graph but raises.  On a document whose title and entries are in order
    the exception is a [KeyError], Python's lookup failure; when the relation
    is the first that does not resolve and has both attributes, it is the
    [KeyError] of the first of its two ids without descriptor.  No other
    exception class marks the case. *)
Theorem unresolved_relation_raises tree filetype rel :
  rel ∈ ET.getiterator "relation" tree →
  unresolved_endpoint (descriptor_table filetype tree) rel →
  (∃ e, KGML2Graph (ET.Document tree) filetype = Raise e) ∧
  (is_Some (ET.attrib tree !! "title") →
   Forall (entry_readable (entriestype filetype)) (ET.getiterator "entry" tree) →
   (∃ k, KGML2Graph (ET.Document tree) filetype = Raise (KeyError k)) ∧
   ∀ l1 l2 e1 e2,
     ET.getiterator "relation" tree = (l1 ++ rel :: l2)%list →
     Forall (fun r => is_Some (resolve (descriptor_table filetype tree) r)) l1 →
     ET.attrib rel !! "entry1" = Some e1 →
     ET.attrib rel !! "entry2" = Some e2 →
     KGML2Graph (ET.Document tree) filetype =
       Raise (KeyError (if decide (descriptor_table filetype tree !! e1 = None)
                        then e1 else e2))).
Proof.
  intros Hin Hun.
  destruct (unresolved_relation_no_graph _ _ _ Hin Hun) as [Hraise Hkey].
  split; [done|]. intros Htitle Hread. split; [by apply Hkey|].
  intros l1 l2 e1 e2 Hsplit Hres H1 H2.
  destruct (first_unresolved_relation _ _ _ _ _ _ _ Htitle Hread Hsplit Hres H1 H2)
    as [Hfirst Hsecond].
  case_decide as Hd1; [by apply Hfirst|].
  apply Hsecond.
  - by destruct (descriptor_table filetype tree !! e1); [eexists|].
  - destruct Hun as (key & id & Hkeys & Hattr & Hnone).
    rewrite !elem_of_cons, elem_of_nil in Hkeys.
    destruct Hkeys as [-> | [-> | []]]; congruence.
Qed.

Lemma unresolved_relation_raises_witness :
  KGML2Graph (ET.Document samples.dangling) "organism" = Raise (KeyError "4").
Proof.
  destruct (unresolved_relation_raises samples.dangling "organism"
              (samples.relation "1" "4")) as [_ Hkey].
  - vm_compute. left.
  - exists "entry2", "4". split_and!; [compute_done | reflexivity | reflexivity].
  - destruct Hkey as [_ Hfirst].
    + by eexists.
    + repeat constructor; try (by eexists); intros _; by eexists.
    + apply (Hfirst [] [] "1" "4").
      * vm_compute. reflexivity.
      * constructor.
      * reflexivity.
      * reflexivity.
Defined.

(** C3, as stated, fails: the exception does not identify an unresolved
    endpoint.  The relation of [unknown_id] names an id without descriptor,
    no relation of [no_entry1] does (its relation lacks the attribute
    [entry1]), and both conversions raise the same [KeyError]; so no test on
    the exception tells the two cases apart. *)
Lemma unresolved_endpoint_not_identified :
  (∃ rel, rel ∈ ET.getiterator "relation" samples.unknown_id ∧
          unresolved_endpoint
            (descriptor_table "organism" samples.unknown_id) rel) ∧
  (∀ rel, rel ∈ ET.getiterator "relation" samples.no_entry1 →
          ¬ unresolved_endpoint
              (descriptor_table "organism" samples.no_entry1) rel) ∧
  KGML2Graph (ET.Document samples.unknown_id) "organism"
    = Raise (KeyError "entry1") ∧
  KGML2Graph (ET.Document samples.no_entry1) "organism"
    = Raise (KeyError "entry1") ∧
  ¬ ∃ identified : exception → Prop,
      ∀ tree filetype e,
        KGML2Graph (ET.Document tree) filetype = Raise e →
        (identified e ↔
           ∃ rel, rel ∈ ET.getiterator "relation" tree ∧
                  unresolved_endpoint (descriptor_table filetype tree) rel).
Proof.
  assert (∃ rel, rel ∈ ET.getiterator "relation" samples.unknown_id ∧
            unresolved_endpoint
              (descriptor_table "organism" samples.unknown_id) rel) as Hyes.
  { exists (samples.relation "entry1" "1"). split; [vm_compute; left|].
    exists "entry1", "entry1". split_and!; [compute_done | reflexivity | reflexivity]. }
  assert (∀ rel, rel ∈ ET.getiterator "relation" samples.no_entry1 →
            ¬ unresolved_endpoint
                (descriptor_table "organism" samples.no_entry1) rel) as Hno.
  { intros rel Hin (key & id & Hkeys & Hattr & Hnone).
    vm_compute in Hin. apply list_elem_of_singleton in Hin. subst rel.
    rewrite !elem_of_cons, elem_of_nil in Hkeys.
    destruct Hkeys as [-> | [-> | []]].
    - vm_compute in Hattr. discriminate.
    - assert (id = "1") as -> by (vm_compute in Hattr; congruence).
      vm_compute in Hnone. discriminate. }
  split_and!; [done | done | by vm_compute | by vm_compute |].
  intros [identified Hid].
  assert (∃ rel, rel ∈ ET.getiterator "relation" samples.no_entry1 ∧
            unresolved_endpoint
              (descriptor_table "organism" samples.no_entry1) rel)
    as (rel & Hin & Hun); [|by apply (Hno rel)].
  apply (Hid samples.no_entry1 "organism" (KeyError "entry1")); [by vm_compute|].
  apply (Hid samples.unknown_id "organism" (KeyError "entry1")); [by vm_compute|].
  done.
Qed.

(** C5: the organism flavors accept exactly the kinds gene, compound and
    map, the generic flavors exactly ortholog, map and compound.  An
    iteration of the entries loop stores the entry's descriptor when its kind
    is accepted and changes nothing when it is not; so the table
    [KGML2Graph] returns for a document has a descriptor only for an entry
    of an accepted kind, and has the id of every such entry; and a document
    that is in order is converted. *)
Theorem accepted_kinds filetype tree :
  let kinds := entriestype filetype in
  let entries := ET.getiterator "entry" tree in
  (filetype ∈ ["organism"; "o"] → kinds = ["gene"; "compound"; "map"]) ∧
  (filetype ∈ ["ko"; "k"; "generic"; "general"] →
     kinds = ["ortholog"; "map"; "compound"]) ∧
  (∀ nodes g el nodes' g',
     entry_body kinds (nodes, g) el = Ok (nodes', g') →
     (¬ accepted kinds el → nodes' = nodes ∧ g' = g) ∧
     (accepted kinds el →
        ∃ id d, entry_record el = Some (id, d) ∧ descriptor_kind d ∈ kinds ∧
                nodes' = <[id := d]> nodes)) ∧
  (∀ o, KGML2Graph (ET.Document tree) filetype = Ok o →
     out_nodes o = descriptor_table filetype tree ∧
     (∀ id d, out_nodes o !! id = Some d →
        descriptor_kind d ∈ kinds ∧
        ∃ el, el ∈ entries ∧ accepted kinds el ∧ entry_record el = Some (id, d)) ∧
     (∀ el, el ∈ entries → accepted kinds el →
        ∃ id d, entry_record el = Some (id, d) ∧ is_Some (out_nodes o !! id))) ∧
  (is_Some (ET.attrib tree !! "title") →
   Forall (entry_readable kinds) entries →
   Forall (fun rel => is_Some (resolve (descriptor_table filetype tree) rel))
          (ET.getiterator "relation" tree) →
   ∃ o, KGML2Graph (ET.Document tree) filetype = Ok o).
Proof.
  cbv zeta.
  assert (∀ el id d, accepted (entriestype filetype) el →
            entry_record el = Some (id, d) →
            descriptor_kind d ∈ entriestype filetype) as Hkind.
  { intros el id d (ty & Hty & Hk) Hrec.
    apply entry_record_Some in Hrec as (_ & _ & Hty' & _). congruence. }
  split_and!.
  - intros Hft. unfold entriestype. by rewrite decide_True.
  - intros Hft. unfold entriestype. rewrite decide_False; [done|].
    rewrite !elem_of_cons, elem_of_nil in *.
    intros [-> | [-> | []]]; destruct Hft as [?|[?|[?|[?|[]]]]]; discriminate.
  - intros nodes g el nodes' g' [Hread Hst]%entry_body_Ok. split.
    + intros Hna. rewrite entry_update_skip in Hst by done. by injection Hst.
    + intros Ha. destruct Hread as (_ & _ & Hrec).
      destruct (Hrec Ha) as [[id d] Hd]. exists id, d.
      rewrite (entry_update_accept _ _ _ _ _ Ha Hd) in Hst.
      split_and!; [done | by eapply Hkind | by injection Hst].
  - intros o Hrun.
    destruct (KGML2Graph_Ok_inputs _ _ _ Hrun) as [Htree Hnodes].
    apply KGML2Graph_Ok in Hrun as (_ & _ & _ & _ & Hread & _).
    rewrite Htree in Hread. rewrite Hnodes. split_and!; [done| |].
    + intros id d [Hempty|(el & Hin & Ha & Hrec)]%entries_table_origin.
      * simpl in Hempty. by rewrite lookup_empty in Hempty.
      * split; [by eapply Hkind | by exists el].
    + intros el Hin Ha.
      destruct (proj1 (Forall_forall _ _) Hread el Hin) as (_ & _ & Hrec).
      destruct (Hrec Ha) as [[id d] Hd]. exists id, d. split; [done|].
      by eapply entries_table_dom.
  - intros [title Htitle] Hread Hres.
    destruct (KGML2Graph_runs tree filetype title Htitle Hread Hres) as (o & Hrun & _).
    by exists o.
Qed.

Lemma accepted_kinds_witness :
  entriestype "o" = ["gene"; "compound"; "map"] ∧
  entriestype "ko" = ["ortholog"; "map"; "compound"] ∧
  ∃ o, KGML2Graph (ET.Document samples.hsa) "organism" = Ok o ∧
       dom (out_nodes o) = {["1"; "2"; "3"]} ∧
       out_nodes o !! "4" = None ∧
       (∀ id d, out_nodes o !! id = Some d →
                descriptor_kind d ∈ entriestype "organism") ∧
       is_Some (out_nodes o !! "2").
Proof.
  destruct (accepted_kinds "o" samples.hsa) as (Ho & _).
  destruct (accepted_kinds "ko" samples.hsa) as (_ & Hko & _).
  destruct (accepted_kinds "organism" samples.hsa) as (_ & _ & _ & Htable & Hruns).
  split; [apply Ho; compute_done|].
  split; [apply Hko; compute_done|].
  destruct Hruns as [o Hrun].
  - by eexists.
  - repeat constructor; try (by eexists); intros _; by eexists.
  - repeat constructor; by eexists.
  - exists o. split; [exact Hrun|].
    destruct (Htable o Hrun) as (Hnodes & Hfrom & Hinto).
    split_and!.
    + rewrite Hnodes. vm_compute. reflexivity.
    + rewrite Hnodes. vm_compute. reflexivity.
    + intros id d Hd. by apply (Hfrom id d).
    + destruct (Hinto (samples.entry "2" "gene" "B" "ALG2...")) as (id & d & Hrec & Hin).
      * vm_compute. right. left.
      * exists "gene". split; [reflexivity | compute_done].
      * vm_compute in Hrec. by injection Hrec as <- <-.
Defined.

(** C8: when an id is carried by several accepted entries, the table maps it
    to the descriptor of the last of them in document order: [el] is an
    accepted entry with that id, nothing accepted after it has the id, and
    whatever precedes it is overwritten.  The repetition raises nothing: a
    document with a title, readable entries and resolvable relations is
    converted, and the returned table has that descriptor. *)
Theorem duplicate_id_last_wins tree filetype l1 el l2 id d :
  let kinds := entriestype filetype in
  ET.getiterator "entry" tree = (l1 ++ el :: l2)%list →
  accepted kinds el →
  entry_record el = Some (id, d) →
  (∀ el' d', el' ∈ l2 → accepted kinds el' → entry_record el' ≠ Some (id, d')) →
  descriptor_table filetype tree !! id = Some d ∧
  (∀ o, KGML2Graph (ET.Document tree) filetype = Ok o →
        out_nodes o !! id = Some d) ∧
  (is_Some (ET.attrib tree !! "title") →
   Forall (entry_readable kinds) (ET.getiterator "entry" tree) →
   Forall (fun rel => is_Some (resolve (descriptor_table filetype tree) rel))
          (ET.getiterator "relation" tree) →
   ∃ o, KGML2Graph (ET.Document tree) filetype = Ok o ∧
        out_nodes o !! id = Some d).
Proof.
  simpl. intros Hsplit Ha Hrec Hlater.
  assert (descriptor_table filetype tree !! id = Some d) as Htable.
  { unfold descriptor_table. rewrite Hsplit. by apply entries_table_last. }
  assert (∀ o, KGML2Graph (ET.Document tree) filetype = Ok o →
               out_nodes o !! id = Some d) as Hout.
  { intros o (_ & _ & [= Htree] & _ & _ & Hnodes & _)%KGML2Graph_Ok.
    by rewrite Hnodes, <- Htree. }
  split_and!; [done..|].
  intros [title Htitle] Hread Hres.
  destruct (KGML2Graph_runs tree filetype title Htitle Hread Hres) as (o & Hrun & _).
  exists o. split; [done | by apply Hout].
Qed.

Lemma duplicate_id_last_wins_witness :
  descriptor_table "organism" samples.hsa !! "3"
    = Some ("D", "C00002", "compound") ∧
  ∃ o, KGML2Graph (ET.Document samples.hsa) "organism" = Ok o ∧
       out_nodes o !! "3" = Some ("D", "C00002", "compound").
Proof.
  destruct (duplicate_id_last_wins samples.hsa "organism"
           [samples.entry "1" "gene" "A" "ALG8";
            samples.entry "2" "gene" "B" "ALG2...";
            samples.entry "3" "compound" "C" "C00001";
            samples.entry "4" "ortholog" "K" "K00001"]
           (samples.entry "3" "compound" "D" "C00002") []
           "3" ("D", "C00002", "compound")) as (Htable & _ & Hruns).
  - vm_compute. reflexivity.
  - exists "compound". split; [reflexivity | compute_done].
  - reflexivity.
  - intros el' d' Hin. by apply elem_of_nil in Hin.
  - split; [exact Htable|]. apply Hruns.
    + by eexists.
    + repeat constructor; try (by eexists); intros _; by eexists.
    + repeat constructor; by eexists.
Defined.

(** C6: relations that resolve to the same two labels, in either order,
    leave one edge between them: [edges()] lists the pair once, and the
    graph has at most as many edges as the document has relations. *)
Theorem duplicate_relations_collapse xmlfile filetype o :
  KGML2Graph xmlfile filetype = Ok o →
  let relations := ET.getiterator "relation" (out_tree o) in
  (∀ i j r1 r2 p1 p2 a b,
     i ≠ j → relations !! i = Some r1 → relations !! j = Some r2 →
     resolve (out_nodes o) r1 = Some p1 → resolve (out_nodes o) r2 = Some p2 →
     networkx.joins a b p1 → networkx.joins a b p2 →
     networkx.multiplicity (out_graph o) a b = 1) ∧
  (networkx.number_of_edges (out_graph o) ≤ length relations)%nat.
Proof.
  intros (Hwf & _ & Hedge & Hlen)%KGML2Graph_graph. simpl. split; [|done].
  intros i j r1 r2 p1 p2 a b _ Hi _ Hp1 _ Hj1 _.
  apply graph_facts.multiplicity_has_edge; [done|].
  apply Hedge. exists r1. split; [by apply list_elem_of_lookup_2 with i|].
  destruct Hj1 as [-> | ->]; auto.
Qed.

Lemma duplicate_relations_collapse_witness :
  ∃ o, KGML2Graph (ET.Document samples.hsa) "organism" = Ok o ∧
       networkx.multiplicity (out_graph o) "ALG8" "ALG2" = 1 ∧
       (networkx.number_of_edges (out_graph o)
          ≤ length (ET.getiterator "relation" (out_tree o)))%nat.
Proof.
  destruct (KGML2Graph (ET.Document samples.hsa) "organism") as [o|e] eqn:Hrun.
  - exists o. split; [reflexivity|].
    destruct (duplicate_relations_collapse _ _ _ Hrun) as [Hone Hcount].
    split; [|exact Hcount].
    destruct (KGML2Graph_Ok_inputs _ _ _ Hrun) as [Htree Hnodes].
    rewrite Htree, Hnodes in Hone.
    apply (Hone 0 1 (samples.relation "1" "2") (samples.relation "2" "1")
                ("ALG8", "ALG2") ("ALG2", "ALG8")).
    + lia.
    + vm_compute. reflexivity.
    + vm_compute. reflexivity.
    + vm_compute. reflexivity.
    + vm_compute. reflexivity.
    + by left.
    + by right.
  - exfalso. vm_compute in Hrun. discriminate.
Defined.


(** * Further properties of the code *)

Lemma hsa_converted :
  ∃ o, KGML2Graph (ET.Document samples.hsa) "organism" = Ok o.
Proof. eexists. vm_compute. reflexivity. Qed.

Section conversion_facts.
Import networkx graph_facts.

Lemma title_add_node g n : title (add_node g n) = title g.
Proof. unfold add_node. by case_decide. Qed.

Lemma title_add_edge g u v : title (add_edge g u v) = title g.
Proof. unfold add_edge. simpl. by rewrite !title_add_node. Qed.

Lemma entries_graph_title kinds st els :
  title (foldl (entry_update kinds) st els).2 = title st.2.
Proof.
  revert st. induction els as [|el els IH]; intros st; simpl; [done|].
  rewrite IH.
  destruct (entry_update_cases kinds st el) as [[-> _]|(id & d & _ & _ & ->)];
    [done|]. simpl.
  case_decide; [apply title_add_node | done].
Qed.

Lemma add_pairs_title g pairs : title (foldl add_pair g pairs) = title g.
Proof.
  revert g. induction pairs as [|p pairs IH]; intros g; simpl; [done|].
  rewrite IH. apply title_add_edge.
Qed.

(** The exception of an iteration of the entries loop does not depend on the
    state. *)
Lemma entry_body_Raise kinds st st' el e :
  entry_body kinds st el = Raise e → entry_body kinds st' el = Raise e.
Proof.
  destruct st as [nodes g], st' as [nodes' g']. unfold entry_body, getitem.
  destruct (ET.attrib el !! "type") as [ty|]; simpl; [|done].
  destruct (ET.attrib el !! "id") as [id|]; simpl; [|done].
  case_decide; [|done].
  destruct (ET.attrib el !! "name") as [name|]; simpl; [|done].
  destruct (ET.find "graphics" el) as [gr|]; simpl; [|done].
  destruct (ET.attrib gr !! "name") as [t|]; simpl; [|done].
  by case_decide.
Qed.

Lemma entry_body_Raise_kind kinds st el e :
  entry_body kinds st el = Raise e →
  (∃ k, e = KeyError k) ∨ e = AttributeError "attrib".
Proof.
  destruct st as [nodes g]. unfold entry_body, getitem.
  destruct (ET.attrib el !! "type") as [ty|]; simpl; [|intros [= <-]; eauto].
  destruct (ET.attrib el !! "id") as [id|]; simpl; [|intros [= <-]; eauto].
  case_decide; [|done].
  destruct (ET.attrib el !! "name") as [name|]; simpl; [|intros [= <-]; eauto].
  destruct (ET.find "graphics" el) as [gr|]; simpl; [|intros [= <-]; eauto].
  destruct (ET.attrib gr !! "name") as [t|]; simpl; [|intros [= <-]; eauto].
  by case_decide.
Qed.

(** The conversion of a document whose entries are readable up to [el], at
    which the loop body raises. *)
Lemma KGML2Graph_entry_raises tree filetype l1 el l2 e :
  is_Some (ET.attrib tree !! "title") →
  ET.getiterator "entry" tree = (l1 ++ el :: l2)%list →
  Forall (entry_readable (entriestype filetype)) l1 →
  entry_body (entriestype filetype) (∅, empty) el = Raise e →
  KGML2Graph (ET.Document tree) filetype = Raise e.
Proof.
  intros [title Htitle] Hsplit Hread Hbody. unfold KGML2Graph. simpl.
  rewrite (proj2 (getitem_Ok _ _ _) Htitle). simpl.
  rewrite Hsplit, for_each_app, (entries_loop_readable _ _ _ Hread). simpl.
  by rewrite (entry_body_Raise _ _ (foldl (entry_update (entriestype filetype))
               (∅, set_title empty title) l1) _ _ Hbody).
Qed.

Lemma converted_root_title xmlfile filetype o :
  KGML2Graph xmlfile filetype = Ok o →
  ∃ t, ET.attrib (out_tree o) !! "title" = Some t.
Proof.
  intros (title & pairs & _ & Htitle & _)%KGML2Graph_Ok. by exists title.
Qed.

Lemma returned_tree_title xmlfile filetype o :
  KGML2Graph xmlfile filetype = Ok o →
  ∃ t, xmlfile = ET.Document (out_tree o) ∧
       ET.attrib (out_tree o) !! "title" = Some t.
Proof.
  intros (title & pairs & Hdoc & Htitle & _)%KGML2Graph_Ok. by exists title.
Qed.

End conversion_facts.

(** X1: a parsed document is converted exactly when its root has a title,
    every entry has its type and id (an accepted one also its name and its
    graphics name), and every relation resolves in the descriptor table. *)
Theorem conversion_succeeds_iff tree filetype :
  (∃ o, KGML2Graph (ET.Document tree) filetype = Ok o) ↔
    is_Some (ET.attrib tree !! "title") ∧
    Forall (entry_readable (entriestype filetype)) (ET.getiterator "entry" tree) ∧
    Forall (fun rel => is_Some (resolve (descriptor_table filetype tree) rel))
           (ET.getiterator "relation" tree).
Proof.
  split.
  - intros [o Hrun].
    destruct (KGML2Graph_Ok_inputs _ _ _ Hrun) as [Htree Hnodes].
    apply KGML2Graph_Ok in Hrun as (title & pairs & _ & Htitle & Hread & _ & Hres & _).
    rewrite Htree in *. rewrite Hnodes in Hres. split_and!; [by eexists | done |].
    apply Forall_lookup. intros i rel Hi.
    destruct (Forall2_lookup_l _ _ _ _ _ Hres Hi) as (p & _ & Hp). by exists p.
  - intros ([title Htitle] & Hread & Hres).
    destruct (KGML2Graph_runs tree filetype title Htitle Hread Hres) as (o & Hrun & _).
    by exists o.
Qed.

(** X2: the returned tree is the parsed document, and the returned graph
    carries the title attribute of its root. *)
Theorem returned_graph_title xmlfile filetype o :
  KGML2Graph xmlfile filetype = Ok o →
  xmlfile = ET.Document (out_tree o) ∧
  is_Some (ET.attrib (out_tree o) !! "title") ∧
  networkx.title (out_graph o) = ET.attrib (out_tree o) !! "title".
Proof.
  intros (title & pairs & Hdoc & Htitle & _ & _ & _ & Hg & _)%KGML2Graph_Ok.
  split_and!; [done | by eexists |].
  by rewrite Hg, add_pairs_title, entries_graph_title, Htitle.
Qed.

Lemma returned_graph_title_witness :
  ∃ o, KGML2Graph (ET.Document samples.hsa) "organism" = Ok o ∧
       networkx.title (out_graph o) = Some "Pathway X".
Proof.
  destruct hsa_converted as [o Hrun]. exists o. split; [exact Hrun|].
  destruct (returned_graph_title _ _ _ Hrun) as ([= <-] & _ & ->).
  reflexivity.
Defined.

(** X3: a parsed document whose root has no title raises
    [KeyError('title')], whatever the flavor, the entries and the relations:
    the title is read before any entry is. *)
Theorem missing_title_raises tree filetype :
  ET.attrib tree !! "title" = None →
  KGML2Graph (ET.Document tree) filetype = Raise (KeyError "title").
Proof.
  intros Hno. unfold KGML2Graph. simpl.
  by rewrite (proj2 (getitem_Raise _ _ _) (conj Hno eq_refl)).
Qed.

Lemma missing_title_raises_witness :
  KGML2Graph (ET.Document (ET.mkElement "pathway" ∅
                [ET.mkElement "entry" ∅ []; samples.relation "1" "2"]))
             "organism"
    = Raise (KeyError "title").
Proof.
  apply (missing_title_raises _ "organism"). reflexivity.
Defined.

(** X4: the type and the id of every entry are read, also of an entry whose
    kind is not accepted: the first entry without one of them stops the
    conversion with the [KeyError] of that attribute.  An entry that has
    both and a kind that is not accepted needs nothing else. *)
Theorem entry_attributes_always_read tree filetype l1 el l2 :
  is_Some (ET.attrib tree !! "title") →
  ET.getiterator "entry" tree = (l1 ++ el :: l2)%list →
  Forall (entry_readable (entriestype filetype)) l1 →
  (ET.attrib el !! "type" = None →
     KGML2Graph (ET.Document tree) filetype = Raise (KeyError "type")) ∧
  (is_Some (ET.attrib el !! "type") → ET.attrib el !! "id" = None →
     KGML2Graph (ET.Document tree) filetype = Raise (KeyError "id")) ∧
  (is_Some (ET.attrib el !! "type") → is_Some (ET.attrib el !! "id") →
     ¬ accepted (entriestype filetype) el →
     entry_readable (entriestype filetype) el).
Proof.
  intros Htitle Hsplit Hread. split_and!.
  - intros Hty. apply (KGML2Graph_entry_raises _ _ _ _ _ _ Htitle Hsplit Hread).
    unfold entry_body, getitem. by rewrite Hty.
  - intros [ty Hty] Hid.
    apply (KGML2Graph_entry_raises _ _ _ _ _ _ Htitle Hsplit Hread).
    unfold entry_body, getitem. by rewrite Hty, Hid.
  - by intros Hty Hid Hna.
Qed.

Lemma entry_attributes_always_read_witness :
  KGML2Graph
    (ET.Document (samples.pathway "P"
       [samples.entry "1" "gene" "A" "ALG8";
        ET.mkElement "entry" {["type" := "ortholog"]} []]))
    "organism" = Raise (KeyError "id").
Proof.
  apply (entry_attributes_always_read _ "organism"
           [samples.entry "1" "gene" "A" "ALG8"]
           (ET.mkElement "entry" {["type" := "ortholog"]} []) []).
  - by eexists.
  - vm_compute. reflexivity.
  - repeat constructor; try (by eexists); intros _; by eexists.
  - by eexists.
  - reflexivity.
Defined.

(** X5: an entry of an accepted kind also needs its name, a [graphics]
    child and the name of that child; the first accepted entry that lacks
    one stops the conversion, with [KeyError] for a missing attribute and
    [AttributeError] for a missing [graphics] child. *)
Theorem accepted_entry_requirements tree filetype l1 el l2 :
  is_Some (ET.attrib tree !! "title") →
  ET.getiterator "entry" tree = (l1 ++ el :: l2)%list →
  Forall (entry_readable (entriestype filetype)) l1 →
  accepted (entriestype filetype) el →
  is_Some (ET.attrib el !! "id") →
  (ET.attrib el !! "name" = None →
     KGML2Graph (ET.Document tree) filetype = Raise (KeyError "name")) ∧
  (is_Some (ET.attrib el !! "name") → ET.find "graphics" el = None →
     KGML2Graph (ET.Document tree) filetype = Raise (AttributeError "attrib")) ∧
  (is_Some (ET.attrib el !! "name") →
   ∀ g, ET.find "graphics" el = Some g → ET.attrib g !! "name" = None →
     KGML2Graph (ET.Document tree) filetype = Raise (KeyError "name")).
Proof.
  intros Htitle Hsplit Hread (ty & Hty & Hin) [id Hid]. split_and!.
  - intros Hname.
    apply (KGML2Graph_entry_raises _ _ _ _ _ _ Htitle Hsplit Hread).
    unfold entry_body, getitem. rewrite Hty, Hid. simpl.
    rewrite decide_True by done. by rewrite Hname.
  - intros [name Hname] Hg.
    apply (KGML2Graph_entry_raises _ _ _ _ _ _ Htitle Hsplit Hread).
    unfold entry_body, getitem. rewrite Hty, Hid. simpl.
    rewrite decide_True by done. rewrite Hname. simpl. by rewrite Hg.
  - intros [name Hname] g Hg Hgn.
    apply (KGML2Graph_entry_raises _ _ _ _ _ _ Htitle Hsplit Hread).
    unfold entry_body, getitem. rewrite Hty, Hid. simpl.
    rewrite decide_True by done. rewrite Hname. simpl. rewrite Hg. simpl.
    by rewrite Hgn.
Qed.

Lemma accepted_entry_requirements_witness :
  KGML2Graph
    (ET.Document (samples.pathway "P"
       [ET.mkElement "entry"
          (list_to_map [("id", "1"); ("type", "gene"); ("name", "A")]) []]))
    "organism" = Raise (AttributeError "attrib").
Proof.
  apply (accepted_entry_requirements _ "organism" []
           (ET.mkElement "entry"
              (list_to_map [("id", "1"); ("type", "gene"); ("name", "A")]) [])
           []).
  - by eexists.
  - vm_compute. reflexivity.
  - constructor.
  - exists "gene". split; [reflexivity | compute_done].
  - by eexists.
  - by eexists.
  - reflexivity.
Defined.

(** X6: on a document that parsed, the only exceptions are the [KeyError]
    of a missing attribute or id and the [AttributeError] of a missing
    [graphics] child. *)
Theorem document_exceptions tree filetype e :
  KGML2Graph (ET.Document tree) filetype = Raise e →
  (∃ k, e = KeyError k) ∨ e = AttributeError "attrib".
Proof.
  unfold KGML2Graph. simpl.
  destruct (getitem (ET.attrib tree) "title") as [title|e0] eqn:Ht; simpl.
  - destruct (for_each (entry_body _) _ _) as [[nodes g1]|e1] eqn:Hentries; simpl.
    + destruct (for_each (relation_body _) _ _) as [g2|e2] eqn:Hrels; simpl; [done|].
      intros [= <-].
      apply for_each_Raise in Hrels as (g' & rel & _ & Hbody).
      destruct (resolve nodes rel) as [p|] eqn:Hres.
      * by rewrite (relation_body_resolved _ _ _ _ Hres) in Hbody.
      * destruct (relation_body_unresolved nodes g' rel Hres) as [k Hk].
        left. exists k. congruence.
    + intros [= <-].
      apply for_each_Raise in Hentries as (st' & el & _ & Hbody).
      by apply entry_body_Raise_kind in Hbody.
  - intros [= <-]. apply getitem_Raise in Ht as [_ ->]. left. by eexists.
Qed.

Lemma document_exceptions_witness :
  ∃ e, KGML2Graph (ET.Document samples.dangling) "organism" = Raise e ∧
       ((∃ k, e = KeyError k) ∨ e = AttributeError "attrib").
Proof.
  destruct (KGML2Graph (ET.Document samples.dangling) "organism") as [o|e] eqn:Hrun.
  - exfalso. vm_compute in Hrun. discriminate.
  - exists e. split; [reflexivity|]. exact (document_exceptions _ _ _ Hrun).
Defined.

Section graph_of_document.
Import networkx graph_facts.

Lemma resolve_Some nodes rel a b :
  resolve nodes rel = Some (a, b) ↔
    ∃ e1 e2 d1 d2,
      ET.attrib rel !! "entry1" = Some e1 ∧ ET.attrib rel !! "entry2" = Some e2 ∧
      nodes !! e1 = Some d1 ∧ nodes !! e2 = Some d2 ∧
      a = descriptor_label d1 ∧ b = descriptor_label d2.
Proof.
  unfold resolve.
  destruct (ET.attrib rel !! "entry1") as [e1|]; simpl; [|naive_solver].
  destruct (ET.attrib rel !! "entry2") as [e2|]; simpl; [|naive_solver].
  destruct (nodes !! e1) as [d1|] eqn:H1; simpl; [|naive_solver].
  destruct (nodes !! e2) as [d2|] eqn:H2; simpl; [|naive_solver].
  naive_solver.
Qed.

Lemma descriptor_table_origin filetype tree id d :
  descriptor_table filetype tree !! id = Some d →
  ∃ el, el ∈ ET.getiterator "entry" tree ∧
        accepted (entriestype filetype) el ∧ entry_record el = Some (id, d).
Proof.
  intros [Hempty|?]%entries_table_origin; [|done].
  simpl in Hempty. by rewrite lookup_empty in Hempty.
Qed.

Lemma size_list_to_set_le (l : list string) :
  (size (list_to_set l : gset string) ≤ length l)%nat.
Proof.
  induction l as [|x l IH].
  - change (size (∅ : gset string) ≤ 0)%nat. by rewrite size_empty.
  - change (size ({[x]} ∪ list_to_set l : gset string) ≤ S (length l))%nat.
    rewrite size_union_alt, size_singleton.
    pose proof (subseteq_size (list_to_set l ∖ {[x]} : gset string) (list_to_set l)
                  ltac:(set_solver)).
    lia.
Qed.

Lemma length_omap_le {A B} (f : A → option B) (l : list A) :
  (length (omap f l) ≤ length l)%nat.
Proof.
  induction l as [|x l IH]; csimpl; [done|]. destruct (f x); csimpl; lia.
Qed.

End graph_of_document.

(** X7: the edges of the graph returned for a document.  Two labels are
    adjacent exactly when some relation of the document resolves to them, in
    one order or the other; adjacency is symmetric and holds between nodes
    only; [edges()] lists every adjacent pair and nothing else, never the
    same pair twice and never in both orders. *)
Theorem graph_edges tree filetype o :
  KGML2Graph (ET.Document tree) filetype = Ok o →
  let g := out_graph o in
  let table := descriptor_table filetype tree in
  (∀ a b, networkx.has_edge g a b ↔
     ∃ rel, rel ∈ ET.getiterator "relation" tree ∧
            (resolve table rel = Some (a, b) ∨ resolve table rel = Some (b, a))) ∧
  (∀ a b, networkx.has_edge g a b → networkx.has_edge g b a) ∧
  (∀ a b, networkx.has_edge g a b →
          a ∈ networkx.nodes g ∧ b ∈ networkx.nodes g) ∧
  (∀ a b, networkx.has_edge g a b ↔
          (a, b) ∈ networkx.edges g ∨ (b, a) ∈ networkx.edges g) ∧
  (∀ a b, (a, b) ∈ networkx.edges g → (b, a) ∈ networkx.edges g → a = b) ∧
  NoDup (networkx.edges g).
Proof.
  intros Hrun. simpl.
  destruct (KGML2Graph_Ok_inputs _ _ _ Hrun) as [Htree Hnodes].
  apply KGML2Graph_graph in Hrun as (Hwf & _ & Hedge & _).
  rewrite Htree, Hnodes in Hedge. split_and!.
  - done.
  - apply Hwf.
  - apply Hwf.
  - intros a b. split.
    + by apply graph_facts.has_edge_edges.
    + intros [?%graph_facts.edges_has_edge|?%graph_facts.edges_has_edge]; [done|].
      by apply (networkx.wf_sym _ Hwf).
  - apply graph_facts.edges_one_direction.
  - apply graph_facts.edges_NoDup.
Qed.

Lemma graph_edges_witness :
  ∃ o, KGML2Graph (ET.Document samples.hsa) "organism" = Ok o ∧
       networkx.number_of_edges (out_graph o) = 2 ∧
       networkx.has_edge (out_graph o) "ALG2" "ALG8" ∧
       NoDup (networkx.edges (out_graph o)) ∧
       (∀ a b, (a, b) ∈ networkx.edges (out_graph o) →
               (b, a) ∈ networkx.edges (out_graph o) → a = b).
Proof.
  destruct hsa_converted as [o Hrun]. exists o. split; [exact Hrun|].
  pose proof hsa_graph as Hgraph. rewrite Hrun in Hgraph.
  split; [exact (proj2 Hgraph)|].
  destruct (graph_edges samples.hsa "organism" o Hrun)
    as (Hedge & _ & _ & _ & Hone & Hnodup).
  split_and!; [|exact Hnodup|exact Hone].
  apply Hedge. exists (samples.relation "1" "2"). split.
  - vm_compute. left.
  - right. vm_compute. reflexivity.
Defined.

(** X8: every node of a returned graph is the label of an accepted entry of
    the document, so the graph has at most as many nodes as the document has
    entry elements. *)
Theorem nodes_are_entry_labels xmlfile filetype o :
  KGML2Graph xmlfile filetype = Ok o →
  let entries := ET.getiterator "entry" (out_tree o) in
  (∀ l, l ∈ networkx.nodes (out_graph o) →
     ∃ el id d, el ∈ entries ∧ accepted (entriestype filetype) el ∧
                entry_record el = Some (id, d) ∧ descriptor_label d = l) ∧
  (size (networkx.nodes (out_graph o)) ≤ length entries)%nat.
Proof.
  intros Hrun. simpl.
  destruct (KGML2Graph_graph _ _ _ Hrun) as (Hwf & Hnode & Hedge & _).
  pose proof Hrun as (_ & _ & -> & _ & _ & Hnodes & _)%KGML2Graph_Ok.
  assert (∀ l, l ∈ networkx.nodes (out_graph o) →
     ∃ el id d, el ∈ ET.getiterator "entry" (out_tree o) ∧
                accepted (entriestype filetype) el ∧
                entry_record el = Some (id, d) ∧ descriptor_label d = l) as Hfrom.
  { intros l [(el & id & d & ? & ? & ? & _ & ?)|[x Hx]]%Hnode.
    - by exists el, id, d.
    - apply Hedge in Hx as (rel & _ & [Hr|Hr]);
        apply resolve_Some in Hr as (e1 & e2 & d1 & d2 & _ & _ & H1 & H2 & Ha & Hb).
      + rewrite Hnodes in H1. apply descriptor_table_origin in H1 as (el & ? & ? & ?).
        by exists el, e1, d1.
      + rewrite Hnodes in H2. apply descriptor_table_origin in H2 as (el & ? & ? & ?).
        by exists el, e2, d2. }
  split; [done|].
  set (label_of := fun el => (fun r : string * descriptor => descriptor_label r.2)
                               <$> entry_record el).
  etrans; [|apply (length_omap_le label_of)].
  etrans; [|apply size_list_to_set_le].
  apply subseteq_size. intros l (el & id & d & Hin & _ & Hrec & Hl)%Hfrom.
  apply elem_of_list_to_set, list_elem_of_omap. exists el. split; [done|].
  unfold label_of. by rewrite Hrec, <- Hl.
Qed.

Lemma nodes_are_entry_labels_witness :
  ∃ o, KGML2Graph (ET.Document samples.hsa) "organism" = Ok o ∧
       (size (networkx.nodes (out_graph o))
          ≤ length (ET.getiterator "entry" (out_tree o)))%nat.
Proof.
  destruct hsa_converted as [o Hrun]. exists o. split; [exact Hrun|].
  exact (proj2 (nodes_are_entry_labels _ _ _ Hrun)).
Defined.

(** X9: with a flavor other than ["organism"] and ["o"] no entry is
    registered as a node, so every node of the returned graph has an edge,
    and a document without relations gives a graph without nodes. *)
Theorem generic_nodes_have_edges xmlfile filetype o :
  filetype ∉ ["organism"; "o"] →
  KGML2Graph xmlfile filetype = Ok o →
  (∀ l, l ∈ networkx.nodes (out_graph o) →
        ∃ x, networkx.has_edge (out_graph o) l x) ∧
  (ET.getiterator "relation" (out_tree o) = [] →
   networkx.nodes (out_graph o) = ∅).
Proof.
  intros Hft (Hwf & Hnode & Hedge & _)%KGML2Graph_graph.
  assert (∀ l, l ∈ networkx.nodes (out_graph o) →
               ∃ x, networkx.has_edge (out_graph o) l x) as Hiso.
  { intros l [(el & id & d & _ & (ty & Hty & Hin) & Hrec & Hk & _)|?]%Hnode; [|done].
    exfalso. apply entry_record_Some in Hrec as (_ & _ & Hty' & _).
    assert (ty = "gene") as -> by congruence.
    unfold entriestype in Hin. rewrite decide_False in Hin by done.
    rewrite !elem_of_cons, elem_of_nil in Hin. naive_solver. }
  split; [done|]. intros Hnone.
  apply set_eq. intros l. split; [|by intros ?%not_elem_of_empty].
  intros [x (rel & Hin & _)%Hedge]%Hiso. rewrite Hnone in Hin.
  by apply elem_of_nil in Hin.
Qed.

Lemma generic_nodes_have_edges_witness :
  ∃ o, KGML2Graph (ET.Document samples.ko) "ko" = Ok o ∧
       ∀ l, l ∈ networkx.nodes (out_graph o) →
            ∃ x, networkx.has_edge (out_graph o) l x.
Proof.
  destruct (KGML2Graph (ET.Document samples.ko) "ko") as [o|e] eqn:Hrun.
  - exists o. split; [reflexivity|].
    refine (proj1 (generic_nodes_have_edges _ "ko" _ _ Hrun)). compute_done.
  - exfalso. vm_compute in Hrun. discriminate.
Defined.

(** ** The exporters and the command line *)

Section exporter_facts.

Lemma prefix_empty s : String.prefix "" s = true.
Proof. by destruct s. Qed.

Lemma replace_slash_cons c s :
  Pystr.replace (String c s) "/" "-"
    = String (dash_for_slash c) (Pystr.replace s "/" "-").
Proof.
  unfold Pystr.replace, dash_for_slash. rewrite !decide_False by done.
  change (Pystr.replace_from "/" "-" 0 (String c s))
    with (if (if Ascii.ascii_dec "/" c then String.prefix "" s else false)
          then "-" +:+ Pystr.replace_from "/" "-" 0 s
          else String c (Pystr.replace_from "/" "-" 0 s)).
  rewrite prefix_empty.
  destruct (Ascii.ascii_dec "/" c) as [<-|Hne].
  - by rewrite decide_True.
  - by rewrite decide_False.
Qed.

Lemma chars_replace_slash s :
  chars (Pystr.replace s "/" "-") = dash_for_slash <$> chars s.
Proof.
  induction s as [|c s IH]; [done|].
  rewrite replace_slash_cons. unfold chars in *. simpl. by rewrite IH.
Qed.

Lemma dash_for_slash_id (l : list Ascii.ascii) :
  "/"%char ∉ l → dash_for_slash <$> l = l.
Proof.
  induction l as [|c l IH]; [done|]. intros [Hc Hl]%not_elem_of_cons. csimpl.
  unfold dash_for_slash at 1. rewrite decide_False by done. f_equal. by apply IH.
Qed.

Lemma chars_app s t : chars (s +:+ t) = (chars s ++ chars t)%list.
Proof.
  unfold chars. induction s as [|c s IH]; [done|].
  change (String c s +:+ t) with (String c (s +:+ t)). simpl. by rewrite IH.
Qed.

Lemma chars_inj s t : chars s = chars t → s = t.
Proof.
  unfold chars. intros H.
  by rewrite <- (String.string_of_list_ascii_of_string s),
             <- (String.string_of_list_ascii_of_string t), H.
Qed.

Lemma chars_length s : length (chars s) = String.length s.
Proof. unfold chars. induction s as [|c s IH]; simpl; [done | by rewrite IH]. Qed.

Lemma graph_title_converted xmlfile filetype o t :
  KGML2Graph xmlfile filetype = Ok o →
  ET.attrib (out_tree o) !! "title" = Some t →
  graph_title (out_graph o) = Ok t.
Proof.
  intros (title & pairs & _ & Htitle & _ & _ & _ & Hg & _)%KGML2Graph_Ok Ht.
  unfold graph_title.
  rewrite Hg, add_pairs_title, entries_graph_title. simpl. congruence.
Qed.

Lemma io_bind_pure {A B} (a : A) (f : A → io B) : io_bind ([], Ok a) f = f a.
Proof. unfold io_bind. simpl. by destruct (f a). Qed.

Lemma io_bind_assoc {A B C} (m : io A) (f : A → io B) (g : B → io C) :
  io_bind (io_bind m f) g = io_bind m (fun a => io_bind (f a) g).
Proof.
  destruct m as [tr [a|e]]; unfold io_bind; simpl; [|done].
  destruct (f a) as [tr' [b|e]]; simpl; [|done].
  by rewrite app_assoc.
Qed.

Lemma call_all_app lib l1 l2 :
  call_all lib (l1 ++ l2) = io_bind (call_all lib l1) (fun _ => call_all lib l2).
Proof.
  induction l1 as [|c l1 IH]; simpl.
  - unfold skip. by rewrite io_bind_pure.
  - by rewrite io_bind_assoc, IH.
Qed.

Lemma call_all_Raise lib calls e :
  (call_all lib calls).2 = Raise e → ∃ c, c ∈ calls ∧ lib c = Some e.
Proof.
  induction calls as [|c calls IH]; simpl; [done|].
  unfold io_bind, call at 1 2. simpl.
  destruct (lib c) as [x|] eqn:Hc; simpl.
  - intros [= <-]. exists c. split; [left | done].
  - intros (c' & ? & ?)%IH. exists c'. split; [by right | done].
Qed.

Lemma call_all_returns lib calls :
  (∀ c, c ∈ calls → lib c = None) → call_all lib calls = (calls, Ok tt).
Proof.
  induction calls as [|c calls IH]; intros Hok; simpl; [done|].
  unfold io_bind, call. rewrite (Hok c) by left. simpl.
  rewrite IH; [done|]. intros c' Hc'. apply Hok. by right.
Qed.

Lemma plot_starlike_calls lib g t :
  graph_title g = Ok t → plot_starlike lib g = call_all lib (plot_calls g t).
Proof.
  intros Ht. unfold plot_starlike. rewrite Ht.
  unfold plot_calls, call_all, io_bind, call, lift, skip. simpl.
  destruct (lib (DrawCircular g)); simpl; [done|].
  destruct (lib (PylabTitle t)); simpl; [done|].
  destruct (lib (SaveFig (plot_filename t))); simpl; [done|].
  by destruct (lib PylabShow).
Qed.

Lemma convert_to_gml_call lib g t :
  graph_title g = Ok t →
  convert_to_gml lib g = call_all lib [WriteGml g (gml_filename t)].
Proof.
  intros Ht. unfold convert_to_gml. rewrite Ht.
  unfold call_all, io_bind, call, lift, skip. simpl.
  by destruct (lib (WriteGml g (gml_filename t))).
Qed.

End exporter_facts.

(** X10: the name the image is saved under is the title with every ['/']
    turned into ['-'], followed by ['.png']: it holds no ['/'], is four
    characters longer than the title, and is the title followed by
    ['.png'] when the title has no ['/']. *)
Theorem plot_filename_safe title :
  chars (plot_filename title)
    = ((dash_for_slash <$> chars title) ++ chars ".png")%list ∧
  ("/"%char ∉ chars (plot_filename title)) ∧
  String.length (plot_filename title) = String.length title + 4 ∧
  ("/"%char ∉ chars title → plot_filename title = title +:+ ".png").
Proof.
  assert (chars (plot_filename title)
            = ((dash_for_slash <$> chars title) ++ chars ".png")%list) as Hchars.
  { unfold plot_filename. by rewrite chars_app, chars_replace_slash. }
  split_and!.
  - done.
  - rewrite Hchars, elem_of_app, list_elem_of_fmap.
    intros [(c & Hc & _)|Hin].
    + unfold dash_for_slash in Hc. by case_decide.
    + simpl in Hin. rewrite !elem_of_cons, elem_of_nil in Hin. naive_solver.
  - rewrite <- !chars_length, Hchars, length_app, length_fmap. simpl. lia.
  - intros Hno. apply chars_inj. rewrite Hchars, chars_app. f_equal.
    by apply dash_for_slash_id.
Qed.

Lemma plot_filename_safe_witness :
  plot_filename "Pathway X" = "Pathway X.png".
Proof.
  apply (plot_filename_safe "Pathway X"). compute_done.
Defined.

(** X11: on the graph returned for a document [plot_starlike] makes, in
    this order, the calls that draw the graph, set the plot title to the
    title of the document's root, save the figure under the name made from
    that title, and show it, up to the first call that raises.  It raises
    nothing of its own: an exception is one a library call raised, and when
    these four calls return it ends normally. *)
Theorem plot_after_conversion lib tree filetype o t :
  KGML2Graph (ET.Document tree) filetype = Ok o →
  ET.attrib tree !! "title" = Some t →
  let calls := plot_calls (out_graph o) t in
  plot_starlike lib (out_graph o) = call_all lib calls ∧
  (∀ e, (plot_starlike lib (out_graph o)).2 = Raise e →
        ∃ c, c ∈ calls ∧ lib c = Some e) ∧
  ((∀ c, c ∈ calls → lib c = None) →
   plot_starlike lib (out_graph o) = (calls, Ok tt)).
Proof.
  intros Hrun Ht. simpl.
  destruct (KGML2Graph_Ok_inputs _ _ _ Hrun) as [Htree _].
  rewrite <- Htree in Ht.
  rewrite (plot_starlike_calls _ _ _ (graph_title_converted _ _ _ _ Hrun Ht)).
  split_and!; [done | apply call_all_Raise | apply call_all_returns].
Qed.

Lemma plot_after_conversion_witness :
  ∃ o, KGML2Graph (ET.Document samples.glycolysis) "organism" = Ok o ∧
       plot_starlike no_such_directory (out_graph o)
         = ([DrawCircular (out_graph o);
             PylabTitle "Glycolysis / Gluconeogenesis";
             SaveFig "Glycolysis - Gluconeogenesis.png";
             PylabShow], Ok tt).
Proof.
  destruct (KGML2Graph (ET.Document samples.glycolysis) "organism")
    as [o|e] eqn:Hrun.
  - exists o. split; [reflexivity|].
    destruct (plot_after_conversion no_such_directory samples.glycolysis
                "organism" o "Glycolysis / Gluconeogenesis" Hrun)
      as (_ & _ & Hreturns); [reflexivity|].
    rewrite Hreturns; [reflexivity|].
    intros c Hc. unfold plot_calls in Hc.
    rewrite !elem_of_cons, elem_of_nil in Hc.
    destruct Hc as [-> | [-> | [-> | [-> | []]]]]; reflexivity.
  - exfalso. vm_compute in Hrun. discriminate.
Defined.

(** X12: on the graph returned for a document [convert_to_gml] makes one
    call, writing the graph to the root's title followed by ['.gml'], and
    ends as that call does.  The name is not cleaned: it holds a ['/']
    exactly when the title does. *)
Theorem gml_after_conversion lib tree filetype o t :
  KGML2Graph (ET.Document tree) filetype = Ok o →
  ET.attrib tree !! "title" = Some t →
  convert_to_gml lib (out_graph o)
    = call lib (WriteGml (out_graph o) (gml_filename t)) ∧
  ("/"%char ∈ chars (gml_filename t) ↔ "/"%char ∈ chars t).
Proof.
  intros Hrun Ht.
  destruct (KGML2Graph_Ok_inputs _ _ _ Hrun) as [Htree _].
  rewrite <- Htree in Ht. split.
  - unfold convert_to_gml.
    rewrite (graph_title_converted _ _ _ _ Hrun Ht).
    exact (io_bind_pure t (fun t' =>
             call lib (WriteGml (out_graph o) (gml_filename t')))).
  - unfold gml_filename. rewrite chars_app, elem_of_app. simpl.
    rewrite !elem_of_cons, elem_of_nil. naive_solver.
Qed.

Lemma gml_after_conversion_witness :
  ∃ o, KGML2Graph (ET.Document samples.glycolysis) "organism" = Ok o ∧
       convert_to_gml no_such_directory (out_graph o)
         = ([WriteGml (out_graph o) "Glycolysis / Gluconeogenesis.gml"],
            Raise IOError).
Proof.
  destruct (KGML2Graph (ET.Document samples.glycolysis) "organism")
    as [o|e] eqn:Hrun.
  - exists o. split; [reflexivity|].
    destruct (gml_after_conversion no_such_directory samples.glycolysis
                "organism" o "Glycolysis / Gluconeogenesis" Hrun)
      as [-> _]; reflexivity.
  - exfalso. vm_compute in Hrun. discriminate.
Defined.

(** X13: on a graph that has no [title] attribute both exporters raise
    [AttributeError]: [plot_starlike] after the call that draws the graph
    (whose own exception, if it raises, comes first) and before any other
    call, [convert_to_gml] before any call. *)
Theorem exporters_need_title lib g :
  networkx.title g = None →
  (lib (DrawCircular g) = None →
   plot_starlike lib g = ([DrawCircular g], Raise (AttributeError "title"))) ∧
  (∀ e, lib (DrawCircular g) = Some e →
        plot_starlike lib g = ([DrawCircular g], Raise e)) ∧
  convert_to_gml lib g = ([], Raise (AttributeError "title")).
Proof.
  intros Hno.
  unfold plot_starlike, convert_to_gml, io_bind, lift, call, graph_title.
  simpl. rewrite Hno. split_and!.
  - by intros ->.
  - by intros e ->.
  - done.
Qed.

Lemma exporters_need_title_witness :
  plot_starlike no_failures (networkx.add_edge networkx.empty "a" "b")
    = ([DrawCircular (networkx.add_edge networkx.empty "a" "b")],
       Raise (AttributeError "title")).
Proof.
  destruct (exporters_need_title no_failures
              (networkx.add_edge networkx.empty "a" "b")) as (Hplot & _ & _).
  - reflexivity.
  - apply Hplot. reflexivity.
Defined.

(** X14: a run of the command.  When the conversion raises, the exception
    is the run's and no library call was made.  When it returns, the run
    makes the calls of [plot_starlike], if [-c] was given, then the call
    writing the gml file, if [-g] was given, both named after the title of
    the document's root, and stops at the first call that raises; when these
    calls return it ends normally.  The option [-d] changes nothing. *)
Theorem main_outcome lib files args :
  match KGML2Graph (files (pathwayfile args)) (pathwaytype args) with
  | Raise e => main lib files args = ([], Raise e)
  | Ok o =>
      ∃ tree t,
        files (pathwayfile args) = ET.Document tree ∧
        ET.attrib tree !! "title" = Some t ∧
        let calls :=
          ((if draw_circular args then plot_calls (out_graph o) t else []) ++
           (if write_gml args then [WriteGml (out_graph o) (gml_filename t)]
            else []))%list in
        main lib files args = call_all lib calls ∧
        (∀ e, (main lib files args).2 = Raise e →
              ∃ c, c ∈ calls ∧ lib c = Some e) ∧
        ((∀ c, c ∈ calls → lib c = None) →
         main lib files args = (calls, Ok tt))
  end ∧
  ∀ d, main lib files (mkNamespace (pathwayfile args) (pathwaytype args) d
                                   (draw_circular args) (write_gml args))
       = main lib files args.
Proof.
  split; [|done]. unfold main.
  destruct (KGML2Graph _ _) as [o|e] eqn:Hrun; [|done].
  destruct (returned_tree_title _ _ _ Hrun) as (t & Hdoc & Ht).
  exists (out_tree o), t. split; [done|]. split; [done|]. cbv zeta.
  pose proof (graph_title_converted _ _ _ _ Hrun Ht) as Hgt.
  match goal with |- ?m = call_all lib ?cs ∧ _ =>
    assert (m = call_all lib cs) as -> end.
  { unfold lift. rewrite io_bind_pure, call_all_app.
    destruct (draw_circular args), (write_gml args);
      rewrite ?(plot_starlike_calls _ _ _ Hgt), ?(convert_to_gml_call _ _ _ Hgt);
      done. }
  split_and!; [done | apply call_all_Raise | apply call_all_returns].
Qed.

(** A run with [-c] and [-g] on a document whose title holds a ['/'], when
    no directory of that name exists: the image is saved, the gml file is
    not written. *)
Example main_glycolysis :
  match main no_such_directory (fun _ => ET.Document samples.glycolysis)
             (mkNamespace "hsa00010.xml" "o" false true true) with
  | (calls, outcome) =>
      outcome = Raise IOError ∧
      omap (fun c => match c with
                     | SaveFig f | WriteGml _ f => Some f
                     | _ => None
                     end) calls
        = ["Glycolysis - Gluconeogenesis.png"; "Glycolysis / Gluconeogenesis.gml"]
  end.
Proof. vm_compute. split; reflexivity. Qed.

(** X15: the six values the option [-type] allows give two behaviours: a
    run with ["o"] is the run with ["organism"], and a run with ["ko"],
    ["k"] or ["general"] is the run with ["generic"]. *)
Theorem cli_types_two_modes lib files args :
  pathwaytype args ∈ pathwaytype_choices →
  main lib files args =
    main lib files (mkNamespace (pathwayfile args)
                  (if decide (pathwaytype args ∈ ["organism"; "o"])
                   then "organism" else "generic")
                  (draw_to_image args) (draw_circular args) (write_gml args)).
Proof.
  intros Hin. unfold main. simpl.
  assert (KGML2Graph (files (pathwayfile args)) (pathwaytype args) =
          KGML2Graph (files (pathwayfile args))
            (if decide (pathwaytype args ∈ ["organism"; "o"])
             then "organism" else "generic")) as ->; [|done].
  unfold KGML2Graph.
  assert (entriestype (pathwaytype args) =
          entriestype (if decide (pathwaytype args ∈ ["organism"; "o"])
                       then "organism" else "generic")) as ->; [|done].
  unfold entriestype at 1. by case_decide.
Qed.

Lemma cli_types_two_modes_witness :
  main no_failures (fun _ => ET.Document samples.ko)
       (mkNamespace "ko.xml" "k" false true true)
  = main no_failures (fun _ => ET.Document samples.ko)
         (mkNamespace "ko.xml" "generic" false true true).
Proof.
  apply (cli_types_two_modes no_failures (fun _ => ET.Document samples.ko)
           (mkNamespace "ko.xml" "k" false true true)).
  compute_done.
Defined.
